(** * Canvas "Mapa Descriptivo del Cliente": a shallow embedding of [src/App.tsx]

    The development follows the TypeScript source top to bottom: the
    string values of the JavaScript platform, the frozen catalog [BLOCKS],
    the report generator [buildTXTContent], the self-check routine
    [runSmokeTests], and the state, effects and handlers of the component
    [CanvasDecisoresPublico].  Platform services the source calls
    (string methods, [Math.round] on doubles, [JSON], [localStorage]) are
    modelled as executable functions next to the code that uses them. *)

From Stdlib Require Import ZArith NArith List String Ascii SpecFloat QArith Qround.
From stdpp Require Import gmap list.

Local Open Scope nat_scope.
Local Open Scope N_scope.
Local Open Scope list_scope.

(** ** JavaScript strings

    A JavaScript string is a finite sequence of UTF-16 code units; [length],
    [===], [includes] and [trim] all work on code units. *)

Abbreviation jsstring := (list N).

(** The source file is UTF-8 text.  [utf8_points] decodes the bytes of a
    literal into code points; [pending] counts the continuation bytes still
    expected and [acc] holds the bits read so far. *)
Fixpoint utf8_points (bs : list N) (pending : nat) (acc : N) : list N :=
  match bs with
  | [] => []
  | b :: bs' =>
      match pending with
      | O =>
          if b <? 128 then b :: utf8_points bs' 0 0
          else if b <? 224 then utf8_points bs' 1 (N.land b 31)
          else if b <? 240 then utf8_points bs' 2 (N.land b 15)
          else utf8_points bs' 3 (N.land b 7)
      | S k =>
          let acc' := acc * 64 + N.land b 63 in
          match k with
          | O => acc' :: utf8_points bs' 0 0
          | S _ => utf8_points bs' k acc'
          end
      end
  end.

(** A code point above the basic plane is a surrogate pair. *)
Definition utf16_units (cp : N) : jsstring :=
  if cp <? 65536 then [cp]
  else let c := cp - 65536 in [55296 + c / 1024; 56320 + c mod 1024].

(** [js "..."] is the string value a source literal denotes. *)
Definition js (s : string) : jsstring :=
  flat_map utf16_units
    (utf8_points (List.map N_of_ascii (list_ascii_of_string s)) 0 0).

(** [Array.prototype.join] on an array of strings. *)
Fixpoint join (sep : jsstring) (arr : list jsstring) : jsstring :=
  match arr with
  | [] => []
  | [x] => x
  | x :: rest => x ++ sep ++ join sep rest
  end.

(** White space and line terminators, the code units [trim] strips. *)
Definition isWhiteSpace (c : N) : bool :=
  (c =? 9) || (c =? 10) || (c =? 11) || (c =? 12) || (c =? 13) || (c =? 32)
  || (c =? 160) || (c =? 5760) || ((8192 <=? c) && (c <=? 8202))
  || (c =? 8232) || (c =? 8233) || (c =? 8239) || (c =? 8287)
  || (c =? 12288) || (c =? 65279).

Fixpoint trimStart (s : jsstring) : jsstring :=
  match s with
  | c :: s' => if isWhiteSpace c then trimStart s' else s
  | [] => []
  end.

Definition trimEnd (s : jsstring) : jsstring := rev (trimStart (rev s)).

(** [String.prototype.trim] *)
Definition trim (s : jsstring) : jsstring := trimEnd (trimStart s).

Definition jsstring_eqb (a b : jsstring) : bool := bool_decide (a = b).

Fixpoint startsWith (s sub : jsstring) : bool :=
  match sub, s with
  | [], _ => true
  | _ :: _, [] => false
  | c :: sub', d :: s' => (c =? d) && startsWith s' sub'
  end.

(** [String.prototype.includes] *)
Fixpoint includes (s sub : jsstring) : bool :=
  startsWith s sub ||
  match s with
  | [] => false
  | _ :: s' => includes s' sub
  end.

(** [String.prototype.split] with a one-unit separator. *)
Fixpoint split_on (sep : N) (s : jsstring) : list jsstring :=
  match s with
  | [] => [[]]
  | c :: s' =>
      match split_on sep s' with
      | cur :: rest => if c =? sep then [] :: cur :: rest else (c :: cur) :: rest
      | [] => [[c]]
      end
  end.

(** The truth value of a string: the empty string is falsy. *)
Definition truthy_string (s : jsstring) : bool :=
  match s with [] => false | _ :: _ => true end.

(** The truth value of [x?.m()] where [x] may be [undefined]. *)
Definition truthy_opt (o : option jsstring) : bool :=
  match o with Some s => truthy_string s | None => false end.

(** ** Numbers *)

Definition digit_unit (d : N) : N := 48 + d.

Fixpoint uint_units (u : Decimal.uint) : jsstring :=
  match u with
  | Decimal.Nil => []
  | Decimal.D0 u' => digit_unit 0 :: uint_units u'
  | Decimal.D1 u' => digit_unit 1 :: uint_units u'
  | Decimal.D2 u' => digit_unit 2 :: uint_units u'
  | Decimal.D3 u' => digit_unit 3 :: uint_units u'
  | Decimal.D4 u' => digit_unit 4 :: uint_units u'
  | Decimal.D5 u' => digit_unit 5 :: uint_units u'
  | Decimal.D6 u' => digit_unit 6 :: uint_units u'
  | Decimal.D7 u' => digit_unit 7 :: uint_units u'
  | Decimal.D8 u' => digit_unit 8 :: uint_units u'
  | Decimal.D9 u' => digit_unit 9 :: uint_units u'
  end.

(** [String(n)] and [`${n}`] for a Number holding the natural number [n]. *)
Definition String_of_nat (n : nat) : jsstring := uint_units (Nat.to_uint n).

(** [String.prototype.padStart] *)
Definition padStart (s : jsstring) (target : nat) (fill : jsstring) : jsstring :=
  let missing := (target - length s)%nat in
  match fill with
  | [] => s
  | _ :: _ => take missing (concat (replicate missing fill)) ++ s
  end.

(** The line break of the template and join separators. *)
Definition LF : jsstring := [10].

(** *** Doubles

    Numbers are IEEE 754 binary64 values. *)

Definition prec : Z := 53.
Definition emax : Z := 1024.

(** The Number holding the natural number [n]. *)
Definition Number_of_nat (n : nat) : spec_float :=
  binary_normalize prec emax (Z.of_nat n) 0 false.

Definition Number_div (x y : spec_float) : spec_float := SFdiv prec emax x y.
Definition Number_mul (x y : spec_float) : spec_float := SFmul prec emax x y.

(** The results [Math.round] can give: an integral Number, NaN or an
    infinity. *)
Inductive rounded :=
  | Integral (z : Z)
  | NotANumber
  | Infinite (negative : bool).

(** [Math.round]: the integer closest to [x], the larger one on a tie, that
    is the floor of [x + 1/2] computed exactly.  A finite double is
    [m * 2^e]. *)
Definition Math_round (x : spec_float) : rounded :=
  match x with
  | S754_zero _ => Integral 0
  | S754_infinity s => Infinite s
  | S754_nan => NotANumber
  | S754_finite s m e =>
      let num := if s then Z.neg m else Z.pos m in
      Integral (if (e <? 0)%Z
                then ((2 * num + 2 ^ (- e)) / 2 ^ (- e + 1))%Z
                else (num * 2 ^ e)%Z)
  end.

(** [`${x}`] for a result of [Math.round] (decimal digits; integral
    Numbers below 10^21 in magnitude print this way). *)
Definition String_of_rounded (r : rounded) : jsstring :=
  match r with
  | Integral z =>
      (if (z <? 0)%Z then js "-" else []) ++ uint_units (N.to_uint (Z.abs_N z))
  | NotANumber => js "NaN"
  | Infinite negative => (if negative then js "-" else []) ++ js "Infinity"
  end.

(** ** The catalog (lines 32-124) *)

Module Block.
Record t := mk {
  id : jsstring;
  numero : jsstring;
  titulo : jsstring;
  pregunta : jsstring
}.
End Block.

Abbreviation Block := Block.t.

Definition KEY : jsstring := js "canvas_decisores_publico_v1".

Definition BLOCKS : list Block := Eval vm_compute in
  [
    Block.mk (js "b1") (js "01.")
      (js "Barreras actuales")
      (js "¿Qué procesos internos (ciclos de aprobación, sistemas legados, compliance) o limitaciones presupuestales están frenando hoy la adopción de nuevas arquitecturas tecnológicas en su organización?");
    Block.mk (js "b2") (js "02.")
      (js "Prioridades estratégicas")
      (js "¿Qué capacidades técnicas (infraestructura como código, observabilidad, resiliencia, seguridad cloud) necesita el equipo de TI para sostener y escalar la transformación digital?");
    Block.mk (js "b3") (js "03.")
      (js "Intereses profesionales")
      (js "¿Qué áreas de especialización (microservicios, contenedores, automatización, IA operativa, analítica avanzada) son prioritarias para fortalecer el desarrollo de su equipo?");
    Block.mk (js "b4") (js "04.")
      (js "Riesgos percibidos")
      (js "¿Qué riesgos (pérdida de datos, interrupciones, brechas de seguridad, vendor lock-in, sobrecostos) generan mayor cautela al desplegar soluciones de mediano y largo plazo?");
    Block.mk (js "b5") (js "05.")
      (js "Visión a futuro")
      (js "¿Cómo imagina que debería funcionar el área de TI en 3–5 años para garantizar agilidad, estabilidad y escalabilidad después de estas transformaciones?");
    Block.mk (js "b6") (js "06.")
      (js "Incentivos y alineación")
      (js "¿Qué reconocimientos o beneficios (KPIs de despliegue continuo, reducción de incidentes, certificaciones técnicas, productividad de equipos) reforzarían el compromiso de su unidad con estas iniciativas?");
    Block.mk (js "b7") (js "07.")
      (js "Red de influencia")
      (js "¿Qué comunidades técnicas internas (comités de arquitectura, foros DevOps) o externas (Oracle User Groups, conferencias de cloud, asociaciones sectoriales) influyen más en sus decisiones de diseño e implementación?");
    Block.mk (js "b8") (js "08.")
      (js "Proveedores actuales")
      (js "¿Qué proveedores tecnológicos o integradores (Oracle, Red Hat, AWS, Azure, Microsoft, firmas locales) han demostrado valor en proyectos similares y cómo se percibe su aporte?");
    Block.mk (js "b9") (js "09.")
      (js "Madurez digital")
      (js "¿Cómo se evalúa actualmente el nivel de madurez digital de la organización en prácticas DevOps (CI/CD, testing automatizado, despliegue continuo, FinOps) y en adopción multicloud?");
    Block.mk (js "b10") (js "10.")
      (js "Motivadores clave")
      (js "¿Qué beneficios (mayor agilidad de entrega, estabilidad de servicios, reducción de incidentes críticos, ahorro de costos, productividad de desarrolladores) motivan más a su equipo para acelerar estas iniciativas?");
    Block.mk (js "b11") (js "11.")
      (js "Criterios de éxito")
      (js "¿Qué mejoras tangibles (menos fallos en producción, tiempos de recuperación más cortos, mayor velocidad de releases, reducción de TCO) deben evidenciar para considerar exitosos los proyectos?");
    Block.mk (js "b12") (js "12.")
      (js "Lecciones previas")
      (js "¿Qué errores de proyectos anteriores (despliegues manuales, falta de rollback, integraciones fallidas, configuraciones dispersas) buscan evitar para garantizar el éxito en esta nueva etapa?")
  ].

(** ** Types (lines 128-133)

    [Answers] is a record from block id to answer; an absent key reads as
    [undefined], here [None]. *)

Abbreviation Answers := (gmap jsstring jsstring).

Record Persisted := {
  p_answers : Answers;
  p_completed : list jsstring
}.

(** [answers[b.id]?.trim()] *)
Definition trimmed_answer (answers : Answers) (b : Block) : option jsstring :=
  trim <$> answers !! Block.id b.

(** [x || fallback] for a string [x] that may be [undefined]. *)
Definition or_else (o : option jsstring) (fallback : jsstring) : jsstring :=
  match o with
  | Some s => if truthy_string s then s else fallback
  | None => fallback
  end.

(** ** Report generation (lines 136-156) *)

Definition TITLE : jsstring :=
  js "🗺️ Mapa Descriptivo del Cliente – Implementadores del Sector Privado".

Definition SIN_RESPUESTA : jsstring := js "[Sin respuesta]".

(** The reducer of [BLOCKS.reduce], shared by the report and the component. *)
Definition count_step (answers : Answers) (acc : nat) (b : Block) : nat :=
  (acc + (if truthy_opt (trimmed_answer answers b) then 1 else 0))%nat.

(** [Math.round((filled / total) * 100)] *)
Definition percent_of (filled total : nat) : rounded :=
  Math_round
    (Number_mul (Number_div (Number_of_nat filled) (Number_of_nat total))
       (Number_of_nat 100)).

(** The four [lines.push] calls of one loop iteration. *)
Definition push_block (answers : Answers) (lines : list jsstring) (b : Block)
  : list jsstring :=
  lines ++ [Block.numero b ++ js " " ++ Block.titulo b;
            Block.pregunta b;
            or_else (trimmed_answer answers b) SIN_RESPUESTA;
            []].

Definition buildTXTContent (answers : Answers) : jsstring :=
  let total := length BLOCKS in
  let filled := fold_left (count_step answers) BLOCKS 0%nat in
  let progress := percent_of filled total in
  let header :=
    join LF
      [TITLE;
       js "Progreso: " ++ String_of_nat filled ++ js "/" ++ String_of_nat total
         ++ js " (" ++ String_of_rounded progress ++ js "%)";
       []] in
  let lines := fold_left (push_block answers) BLOCKS [] in
  header ++ join LF lines.

(** ** Exceptions

    Code that can throw returns an [outcome]; [try]/[catch] is a match on
    it. *)

Inductive exn :=
  | QuotaExceededError
  | SyntaxError
  | TypeError.

Inductive outcome (A : Type) :=
  | Ok (a : A)
  | Throw (e : exn).

Arguments Ok {A} a.
Arguments Throw {A} e.

Definition bind {A B : Type} (m : outcome A) (k : A -> outcome B) : outcome B :=
  match m with
  | Ok a => k a
  | Throw e => Throw e
  end.

Notation "'let*' x ':=' m 'in' k" := (bind m (fun x => k))
  (at level 10, x name, m at level 100, k at level 200).

(** ** [localStorage]

    A key-value store of strings with a size limit; [setItem] throws when
    the store would outgrow it. *)

Record Storage := {
  items : gmap jsstring jsstring;
  quota : N
}.

(** The code units the stored keys and values take. *)
Definition used (m : gmap jsstring jsstring) : N :=
  map_fold (fun k v n => N.of_nat (length k) + N.of_nat (length v) + n) 0 m.

Definition setItem (k v : jsstring) (s : Storage) : outcome Storage :=
  let items' := <[k := v]> (items s) in
  if decide (used items' <= quota s)
  then Ok {| items := items'; quota := quota s |}
  else Throw QuotaExceededError.

(** [null] for a missing key is [None]. *)
Definition getItem (k : jsstring) (s : Storage) : option jsstring :=
  items s !! k.

Definition removeItem (k : jsstring) (s : Storage) : Storage :=
  {| items := delete k (items s); quota := quota s |}.

(** ** [JSON]

    Values as [JSON.parse] builds them.  A number keeps its lexeme: no code
    of the component reads one. *)

#[local] Set Warnings "-register-all".

Inductive json :=
  | JNull
  | JBool (b : bool)
  | JNumber (lexeme : jsstring)
  | JString (s : jsstring)
  | JArray (elems : list json)
  | JObject (members : list (jsstring * json)).

(** Four lowercase hexadecimal digits, as in a [\uXXXX] escape. *)
Definition hex_digit (d : N) : N := if d <? 10 then 48 + d else 87 + d.

Definition unicode_escape (c : N) : jsstring :=
  [92; 117; hex_digit (c / 4096 mod 16); hex_digit (c / 256 mod 16);
   hex_digit (c / 16 mod 16); hex_digit (c mod 16)].

Definition is_high_surrogate (c : N) : bool := (55296 <=? c) && (c <=? 56319).
Definition is_low_surrogate (c : N) : bool := (56320 <=? c) && (c <=? 57343).

(** One code unit that is not part of a surrogate pair. *)
Definition quote_unit (c : N) : jsstring :=
  if c =? 8 then [92; 98]
  else if c =? 9 then [92; 116]
  else if c =? 10 then [92; 110]
  else if c =? 12 then [92; 102]
  else if c =? 13 then [92; 114]
  else if c =? 34 then [92; 34]
  else if c =? 92 then [92; 92]
  else if c <? 32 then unicode_escape c
  else if is_high_surrogate c || is_low_surrogate c then unicode_escape c
  else [c].

Fixpoint quote_units (s : jsstring) : jsstring :=
  match s with
  | [] => []
  | c :: s' =>
      match s' with
      | d :: s'' =>
          if is_high_surrogate c && is_low_surrogate d
          then c :: d :: quote_units s''
          else quote_unit c ++ quote_units s'
      | [] => quote_unit c
      end
  end.

(** A string as [JSON.stringify] writes it. *)
Definition quote_json (s : jsstring) : jsstring := [34] ++ quote_units s ++ [34].

(** One member of the [answers] object as it is written. *)
Definition member_text (kv : jsstring * jsstring) : jsstring :=
  quote_json kv.1 ++ js ":" ++ quote_json kv.2.

(** [JSON.stringify(payload)] for a payload of type [Persisted].  The
    members of [answers] are listed in the enumeration order of the map;
    the engine lists them in property order, and no result below depends on
    the order. *)
Definition JSON_stringify (p : Persisted) : jsstring :=
  js "{" ++ quote_json (js "answers") ++ js ":{"
  ++ join (js ",") (member_text <$> map_to_list (p_answers p))
  ++ js "}," ++ quote_json (js "completed") ++ js ":["
  ++ join (js ",") (quote_json <$> p_completed p)
  ++ js "]}".

(** *** [JSON.parse]

    A recursive-descent reader of the JSON grammar.  Each reader returns the
    value read and the rest of the text, or [None] for a syntax error. *)

Fixpoint skip_ws (s : jsstring) : jsstring :=
  match s with
  | c :: s' =>
      if (c =? 32) || (c =? 9) || (c =? 10) || (c =? 13) then skip_ws s' else s
  | [] => []
  end.

Definition hex_value (c : N) : option N :=
  if (48 <=? c) && (c <=? 57) then Some (c - 48)
  else if (97 <=? c) && (c <=? 102) then Some (c - 87)
  else if (65 <=? c) && (c <=? 70) then Some (c - 55)
  else None.

(** The unit a one-letter escape stands for. *)
Definition simple_escape (c : N) : option N :=
  if c =? 34 then Some 34
  else if c =? 92 then Some 92
  else if c =? 47 then Some 47
  else if c =? 98 then Some 8
  else if c =? 102 then Some 12
  else if c =? 110 then Some 10
  else if c =? 114 then Some 13
  else if c =? 116 then Some 9
  else None.

(** The text after an opening quote, up to the closing one. *)
Fixpoint parse_string_body (s : jsstring) : option (jsstring * jsstring) :=
  match s with
  | [] => None
  | c :: s' =>
      if c =? 34 then Some ([], s')
      else if c =? 92 then
        match s' with
        | e :: s'' =>
            if e =? 117 then
              match s'' with
              | h1 :: h2 :: h3 :: h4 :: s''' =>
                  match hex_value h1, hex_value h2, hex_value h3, hex_value h4 with
                  | Some a, Some b, Some c', Some d =>
                      match parse_string_body s''' with
                      | Some (body, rest) =>
                          Some ((a * 4096 + b * 256 + c' * 16 + d) :: body, rest)
                      | None => None
                      end
                  | _, _, _, _ => None
                  end
              | _ => None
              end
            else
              match simple_escape e with
              | Some u =>
                  match parse_string_body s'' with
                  | Some (body, rest) => Some (u :: body, rest)
                  | None => None
                  end
              | None => None
              end
        | [] => None
        end
      else if c <? 32 then None
      else
        match parse_string_body s' with
        | Some (body, rest) => Some (c :: body, rest)
        | None => None
        end
  end.

Definition is_digit (c : N) : bool := (48 <=? c) && (c <=? 57).

Fixpoint span_digits (s : jsstring) : jsstring * jsstring :=
  match s with
  | c :: s' =>
      if is_digit c then let '(ds, rest) := span_digits s' in (c :: ds, rest)
      else ([], s)
  | [] => ([], [])
  end.

(** The integer part of a number: a lone zero, or digits that do not start
    with zero. *)
Definition parse_int_part (s : jsstring) : option (jsstring * jsstring) :=
  match s with
  | c :: s' =>
      if c =? 48 then Some ([c], s')
      else if is_digit c then let '(ds, rest) := span_digits s' in Some (c :: ds, rest)
      else None
  | [] => None
  end.

Definition parse_frac_part (s : jsstring) : option (jsstring * jsstring) :=
  match s with
  | c :: s' =>
      if c =? 46 then
        match span_digits s' with
        | ([], _) => None
        | (ds, rest) => Some (c :: ds, rest)
        end
      else Some ([], s)
  | [] => Some ([], [])
  end.

Definition parse_exp_part (s : jsstring) : option (jsstring * jsstring) :=
  match s with
  | c :: s' =>
      if (c =? 101) || (c =? 69) then
        let '(sign, s'') :=
          match s' with
          | g :: t => if (g =? 43) || (g =? 45) then ([g], t) else ([], s')
          | [] => ([], s')
          end in
        match span_digits s'' with
        | ([], _) => None
        | (ds, rest) => Some (c :: sign ++ ds, rest)
        end
      else Some ([], s)
  | [] => Some ([], [])
  end.

Definition parse_number (s : jsstring) : option (jsstring * jsstring) :=
  let '(sign, s1) :=
    match s with
    | c :: s' => if c =? 45 then ([c], s') else ([], s)
    | [] => ([], s)
    end in
  match parse_int_part s1 with
  | Some (ip, s2) =>
      match parse_frac_part s2 with
      | Some (fp, s3) =>
          match parse_exp_part s3 with
          | Some (ep, s4) => Some (sign ++ ip ++ fp ++ ep, s4)
          | None => None
          end
      | None => None
      end
  | None => None
  end.

(** Defining a property: a repeated key keeps its place and takes the
    later value. *)
Fixpoint set_member (k : jsstring) (v : json) (members : list (jsstring * json))
  : list (jsstring * json) :=
  match members with
  | [] => [(k, v)]
  | (k', v') :: rest =>
      if bool_decide (k' = k) then (k, v) :: rest
      else (k', v') :: set_member k v rest
  end.

Definition expect (lit : jsstring) (v : json) (s : jsstring)
  : option (json * jsstring) :=
  if startsWith s lit then Some (v, drop (length lit) s) else None.

(** Values, array elements and object members.  [fuel] bounds the number
    of nested reader calls; a call either consumes a unit of text or hands
    over to one that does, which is where the bound used by [JSON_parse]
    comes from. *)
Fixpoint parse_value (fuel : nat) (s : jsstring) : option (json * jsstring) :=
  match fuel with
  | O => None
  | S fuel' =>
      match skip_ws s with
      | [] => None
      | c :: s' =>
          if c =? 110 then expect (js "null") JNull (c :: s')
          else if c =? 116 then expect (js "true") (JBool true) (c :: s')
          else if c =? 102 then expect (js "false") (JBool false) (c :: s')
          else if c =? 34 then
            match parse_string_body s' with
            | Some (str, rest) => Some (JString str, rest)
            | None => None
            end
          else if c =? 91 then
            match skip_ws s' with
            | d :: rest => if d =? 93 then Some (JArray [], rest)
                           else parse_elements fuel' s' []
            | [] => None
            end
          else if c =? 123 then
            match skip_ws s' with
            | d :: rest => if d =? 125 then Some (JObject [], rest)
                           else parse_members fuel' s' []
            | [] => None
            end
          else
            match parse_number (c :: s') with
            | Some (lexeme, rest) => Some (JNumber lexeme, rest)
            | None => None
            end
      end
  end
with parse_elements (fuel : nat) (s : jsstring) (acc : list json)
  : option (json * jsstring) :=
  match fuel with
  | O => None
  | S fuel' =>
      match parse_value fuel' s with
      | Some (v, rest) =>
          match skip_ws rest with
          | d :: rest' =>
              if d =? 44 then parse_elements fuel' rest' (acc ++ [v])
              else if d =? 93 then Some (JArray (acc ++ [v]), rest')
              else None
          | [] => None
          end
      | None => None
      end
  end
with parse_members (fuel : nat) (s : jsstring) (acc : list (jsstring * json))
  : option (json * jsstring) :=
  match fuel with
  | O => None
  | S fuel' =>
      match skip_ws s with
      | q :: s1 =>
          if q =? 34 then
            match parse_string_body s1 with
            | Some (k, s2) =>
                match skip_ws s2 with
                | colon :: s3 =>
                    if colon =? 58 then
                      match parse_value fuel' s3 with
                      | Some (v, rest) =>
                          match skip_ws rest with
                          | d :: rest' =>
                              if d =? 44
                              then parse_members fuel' rest' (set_member k v acc)
                              else if d =? 125
                              then Some (JObject (set_member k v acc), rest')
                              else None
                          | [] => None
                          end
                      | None => None
                      end
                    else None
                | [] => None
                end
            | None => None
            end
          else None
      | [] => None
      end
  end.

(** [JSON.parse(text)]: one value, then only white space.  Running out of
    fuel would read as a syntax error; [JSON_parse_stringify] below shows
    that it does not happen on any text [JSON_stringify] writes. *)
Definition JSON_parse (text : jsstring) : outcome json :=
  match parse_value (2 * length text + 2) text with
  | Some (v, rest) =>
      match skip_ws rest with
      | [] => Ok v
      | _ :: _ => Throw SyntaxError
      end
  | None => Throw SyntaxError
  end.

(** *** Reading properties

    [v.k] for a parsed value [v] and a key [k] that no built-in prototype
    defines (the keys read below are "answers", "completed" and block ids).
    [undefined] is [None]; reading from [null] throws. *)
Fixpoint lookup_member (k : jsstring) (members : list (jsstring * json))
  : option json :=
  match members with
  | [] => None
  | (k', v) :: rest => if bool_decide (k' = k) then Some v else lookup_member k rest
  end.

Definition get_prop (v : json) (k : jsstring) : outcome (option json) :=
  match v with
  | JNull => Throw TypeError
  | JObject members => Ok (lookup_member k members)
  | _ => Ok None
  end.

(** [v?.k] where [v] itself may be [undefined]. *)
Definition get_prop_opt (v : option json) (k : jsstring) : option json :=
  match v with
  | Some (JObject members) => lookup_member k members
  | _ => None
  end.

(** [v === lit] for a string literal [lit]. *)
Definition strict_eq_string (v : option json) (lit : jsstring) : bool :=
  match v with
  | Some (JString s) => bool_decide (s = lit)
  | _ => false
  end.

(** *** Reading a parsed value at the declared type [Persisted]

    [parsed.answers || {}] and [parsed.completed || []] are typed [Answers]
    and [string[]].  These readers return [None] when the parsed value is
    not of that type; an absent, [null], [false] or empty-string field is
    falsy and gives the default.  (A number is counted as outside the
    type whatever its truth value.) *)

Fixpoint answers_of_members (members : list (jsstring * json)) : option Answers :=
  match members with
  | [] => Some ∅
  | (k, JString v) :: rest =>
      match answers_of_members rest with
      | Some m => Some (<[k := v]> m)
      | None => None
      end
  | _ :: _ => None
  end.

Fixpoint strings_of_elems (elems : list json) : option (list jsstring) :=
  match elems with
  | [] => Some []
  | JString s :: rest =>
      match strings_of_elems rest with
      | Some l => Some (s :: l)
      | None => None
      end
  | _ :: _ => None
  end.

Definition answers_or_default (v : option json) : option Answers :=
  match v with
  | None | Some JNull | Some (JBool false) | Some (JString []) => Some ∅
  | Some (JObject members) => answers_of_members members
  | Some _ => None
  end.

Definition completed_or_default (v : option json) : option (list jsstring) :=
  match v with
  | None | Some JNull | Some (JBool false) | Some (JString []) => Some []
  | Some (JArray elems) => strings_of_elems elems
  | Some _ => None
  end.

(** ** Self-check routine (lines 159-230) *)

Inductive Info :=
  | NoInfo
  | InfoText (s : jsstring)
  | InfoError (e : exn).

Record TestResult := {
  name : jsstring;
  pass : bool;
  info : Info
}.

(** [arr[i]] followed by a property read: reading from [undefined] throws. *)
Definition at_index {A : Type} (arr : list A) (i : nat) : outcome A :=
  match arr !! i with
  | Some a => Ok a
  | None => Throw TypeError
  end.

(** [`${String(i + 1).padStart(2, "0")}.`] *)
Definition numero_expected (i : nat) : jsstring :=
  padStart (String_of_nat (i + 1)) 2 (js "0") ++ js ".".

(** [arr.every((a, i) => f(a, i))] *)
Definition every_indexed {A : Type} (f : A -> nat -> bool) (arr : list A) : bool :=
  forallb (fun b : bool => b) (imap (fun i a => f a i) arr).

(** Test 6, the [try]/[catch] block of lines 197-213. *)
Definition roundtrip_check (s : Storage) : TestResult * Storage :=
  let failed e s' :=
    ({| name := js "localStorage roundtrip"; pass := false; info := InfoError e |}, s') in
  let key := KEY ++ js "_test" in
  let payload :=
    {| p_answers := {[ js "b1" := js "ok" ]}; p_completed := [js "b1"] |} in
  match setItem key (JSON_stringify payload) s with
  | Throw e => failed e s
  | Ok s1 =>
      match JSON_parse (or_else (getItem key s1) (js "{}")) with
      | Throw e => failed e s1
      | Ok back =>
          let s2 := removeItem key s1 in
          match get_prop back (js "answers") with
          | Throw e => failed e s2
          | Ok a =>
              ({| name := js "localStorage roundtrip";
                  pass := strict_eq_string (get_prop_opt a (js "b1")) (js "ok");
                  info := NoInfo |}, s2)
          end
      end
  end.

(** Test 7, lines 216-226.  [buildTXTContent] does not throw, so the
    [catch] branch is never taken. *)
Definition txt_check : TestResult :=
  let sample := buildTXTContent ∅ in
  let ok :=
    includes sample (js "🗺️ Mapa Descriptivo del Cliente")
    && includes sample (js "01.")
    && includes sample (js "12.")
    && negb (includes sample (js "undefined")) in
  {| name := js "TXT generator"; pass := ok; info := NoInfo |}.

(** The routine returns the table it prints and the storage it leaves. *)
Definition runSmokeTests (s : Storage) : outcome (list TestResult * Storage) :=
  (* 1 *)
  let r1 := {| name := js "12 bloques";
               pass := bool_decide (length BLOCKS = 12%nat);
               info := InfoText (js "count=" ++ String_of_nat (length BLOCKS)) |} in
  (* 2 *)
  let ids := Block.id <$> BLOCKS in
  let unique := size (list_to_set ids : gset jsstring) in
  let r2 := {| name := js "IDs únicos";
               pass := bool_decide (unique = length ids);
               info := InfoText (js "unique=" ++ String_of_nat unique) |} in
  (* 3 *)
  let seq :=
    every_indexed
      (fun b i => bool_decide (Block.numero b = numero_expected i)) BLOCKS in
  let r3 := {| name := js "Numeración secuencial"; pass := seq; info := NoInfo |} in
  (* 4 *)
  let nonEmpty :=
    forallb
      (fun b => truthy_string (Block.titulo b) && truthy_string (Block.pregunta b)
                && includes (Block.pregunta b) (js "¿")) BLOCKS in
  let r4 := {| name := js "Contenido no vacío y con ¿"; pass := nonEmpty;
               info := NoInfo |} in
  (* 5 *)
  let* spot :=
    (let* b0 := at_index BLOCKS 0 in
     if includes (Block.pregunta b0) (js "presupuestales")
     then let* b11 := at_index BLOCKS 11 in
          Ok (includes (Block.pregunta b11) (js "baja adopción"))
     else Ok false) in
  let r5 := {| name := js "Spot-check cadenas"; pass := spot; info := NoInfo |} in
  (* 6 *)
  let '(r6, s') := roundtrip_check s in
  (* 7 *)
  let r7 := txt_check in
  Ok ([r1; r2; r3; r4; r5; r6; r7], s').

(** ** The component [CanvasDecisoresPublico] (lines 233-514)

    The three [useState] cells are the fields of [State]. *)

Record State := {
  answers : Answers;
  completed : list jsstring;
  focusId : jsstring
}.

(** Initial values of the cells; [BLOCKS[0].id] is read once. *)
Definition initial_state : outcome State :=
  let* b0 := at_index BLOCKS 0 in
  Ok {| answers := ∅; completed := []; focusId := Block.id b0 |}.

(** The state outcomes of the load effect.  [OutsideType] marks stored text
    that parses to a value not of type [Persisted]; the cells would then
    hold values their types do not describe. *)
Inductive load_outcome :=
  | Loaded (st : State)
  | OutsideType.

(** Load effect, lines 240-249: every exception is caught and leaves the
    state as it was. *)
Definition loadEffect (st : State) (s : Storage) : load_outcome :=
  match getItem KEY s with
  | Some raw =>
      if truthy_string raw then
        match JSON_parse raw with
        | Throw _ => Loaded st
        | Ok parsed =>
            match get_prop parsed (js "answers") with
            | Throw _ => Loaded st
            | Ok a =>
                match get_prop parsed (js "completed") with
                | Throw _ => Loaded st
                | Ok c =>
                    match answers_or_default a, completed_or_default c with
                    | Some a', Some c' =>
                        Loaded {| answers := a'; completed := c';
                                  focusId := focusId st |}
                    | _, _ => OutsideType
                    end
                end
            end
        end
      else Loaded st
  | None => Loaded st
  end.

(** Save effect, lines 252-255: the write is not guarded. *)
Definition saveEffect (st : State) (s : Storage) : outcome Storage :=
  let payload := {| p_answers := answers st; p_completed := completed st |} in
  setItem KEY (JSON_stringify payload) s.

(** Lines 262-267: the figures every render derives.  [filled] is
    memoised on [answers] alone. *)
Definition total : nat := length BLOCKS.

Definition filled (answers : Answers) : nat :=
  fold_left (count_step answers) BLOCKS 0%nat.

Definition progress (answers : Answers) : rounded :=
  percent_of (filled answers) total.

(** Lines 269-273. *)
Definition onToggleComplete (id : jsstring) (st : State) : State :=
  {| answers := answers st;
     completed :=
       (let prev := completed st in
        if bool_decide (id ∈ prev)
        then filter (fun x => x ≠ id) prev
        else prev ++ [id]);
     focusId := focusId st |}.

(** Lines 275-277. *)
Definition onChange (id value : jsstring) (st : State) : State :=
  {| answers := <[id := value]> (answers st);
     completed := completed st;
     focusId := focusId st |}.

(** The click handler of the "Limpiar" button, lines 434-443. *)
Definition onClickLimpiar (b : Block) (st : State) : State :=
  onChange (Block.id b) [] st.

(** The click handler of a card, line 390. *)
Definition setFocusId (id : jsstring) (st : State) : State :=
  {| answers := answers st; completed := completed st; focusId := id |}.

(** What a handler asks of the document and of the state cells. *)
Inductive Action :=
  | PreventDefault
  | SetFocusId (id : jsstring)
  | ScrollToCard (id : jsstring)
  | ToggleComplete (id : jsstring)
  | Download (filename text : jsstring).

(** Lines 279-288. *)
Definition exportTXT (answers : Answers) : Action :=
  Download (js "canvas_implementadores_sector_privado.txt")
    (buildTXTContent answers).

Record KeyboardEvent := {
  key : jsstring;
  ctrlKey : bool;
  metaKey : bool;
  altKey : bool
}.

(** [arr.findIndex(p)], -1 when no element satisfies [p]. *)
Definition findIndex {A : Type} (P : A -> Prop) `{forall a, Decision (P a)}
    (arr : list A) : Z :=
  match list_find P arr with
  | Some (i, _) => Z.of_nat i
  | None => (-1)%Z
  end.

(** [arr[i]] for a Number [i] that holds an integer, then a property read. *)
Definition at_index_Z {A : Type} (arr : list A) (i : Z) : outcome A :=
  if (i <? 0)%Z then Throw TypeError else at_index arr (Z.to_nat i).

Section Keyboard.

(** [String.prototype.toLowerCase], a service of the platform. *)
Variable toLowerCase : jsstring -> jsstring.

(** The keydown listener, lines 292-317.  The effect installs it anew
    only when [focusId] changes, so [focusId] is current while the
    [answers] that [exportTXT] reads are those of the render that
    installed it ([captured]). *)
Definition h (focusId : jsstring) (captured : Answers) (e : KeyboardEvent)
  : outcome (list Action) :=
  let idx := findIndex (fun b => Block.id b = focusId) BLOCKS in
  let* down :=
    (if bool_decide (key e = js "ArrowDown") then
       let* b :=
         at_index_Z BLOCKS (Z.min (Z.of_nat (length BLOCKS) - 1) (idx + 1)) in
       let next := Block.id b in
       Ok [PreventDefault; SetFocusId next; ScrollToCard next]
     else Ok []) in
  let* up :=
    (if bool_decide (key e = js "ArrowUp") then
       let* b := at_index_Z BLOCKS (Z.max 0 (idx - 1)) in
       let prev := Block.id b in
       Ok [PreventDefault; SetFocusId prev; ScrollToCard prev]
     else Ok []) in
  let toggle :=
    if (ctrlKey e || metaKey e)
       && bool_decide (toLowerCase (key e) = js "enter")
    then [PreventDefault; ToggleComplete focusId]
    else [] in
  let export :=
    if altKey e
       && (bool_decide (toLowerCase (key e) = js "e")
           || bool_decide (toLowerCase (key e) = js "x"))
    then [PreventDefault; exportTXT captured]
    else [] in
  Ok (down ++ up ++ toggle ++ export).

(** The state after one action; scrolling, downloading and
    [preventDefault] leave the cells alone. *)
Definition perform (st : State) (a : Action) : State :=
  match a with
  | SetFocusId id => setFocusId id st
  | ToggleComplete id => onToggleComplete id st
  | PreventDefault | ScrollToCard _ | Download _ _ => st
  end.

(** One keydown event delivered to the listener. *)
Definition keydown (captured : Answers) (e : KeyboardEvent) (st : State)
  : outcome State :=
  let* actions := h (focusId st) captured e in
  Ok (fold_left perform actions st).

End Keyboard.

(** The "move down" and "move up" events, with any modifier keys. *)
Definition ArrowDown (ctrl meta alt : bool) : KeyboardEvent :=
  {| key := js "ArrowDown"; ctrlKey := ctrl; metaKey := meta; altKey := alt |}.

Definition ArrowUp (ctrl meta alt : bool) : KeyboardEvent :=
  {| key := js "ArrowUp"; ctrlKey := ctrl; metaKey := meta; altKey := alt |}.

(** Lower-casing of the letters A to Z, one instance of the platform
    service. *)
Definition ascii_toLowerCase (s : jsstring) : jsstring :=
  (fun c => if (65 <=? c) && (c <=? 90) then c + 32 else c) <$> s.

(** What one card shows, lines 378-381. *)
Module Card.
Record t := mk {
  value : jsstring;
  isComplete : bool;
  count : nat
}.
End Card.

Definition render_card (st : State) (b : Block) : Card.t :=
  let value := or_else (answers st !! Block.id b) [] in
  let isComplete :=
    bool_decide (Block.id b ∈ completed st) || truthy_string (trim value) in
  let count := length (trim value) in
  Card.mk value isComplete count.

(** ** The figures and the report as the specification words them *)

(** The answer of a block; an absent key is the empty answer. *)
Definition answer_of (answers : Answers) (b : Block) : jsstring :=
  default [] (answers !! Block.id b).

(** The block has an answer that is non-empty once trimmed. *)
Definition answered (answers : Answers) (b : Block) : bool :=
  truthy_string (trim (answer_of answers b)).

(** Rounding to the nearest integer, halves upwards. *)
Definition round_half_up (q : Q) : Z := Qfloor (q + (1 # 2))%Q.

(** "Progreso: <filled>/<total> (<percent>%)" with the figures of the
    component. *)
Definition progress_line (answers : Answers) : jsstring :=
  js "Progreso: " ++ String_of_nat (filled answers) ++ js "/"
  ++ String_of_nat total ++ js " (" ++ String_of_rounded (progress answers)
  ++ js "%)".

(** The four lines of one block. *)
Definition block_group (answers : Answers) (b : Block) : list jsstring :=
  [Block.numero b ++ js " " ++ Block.titulo b;
   Block.pregunta b;
   if answered answers b then trim (answer_of answers b) else SIN_RESPUESTA;
   []].

Definition body_lines (answers : Answers) : list jsstring :=
  concat (block_group answers <$> BLOCKS).

(** Title line, progress line, blank line, then the groups, all joined by
    single line breaks. *)
Definition report_as_specified (answers : Answers) : jsstring :=
  join LF ([TITLE; progress_line answers; []] ++ body_lines answers).

(** The line that follows the first line equal to [question]: the answer
    line of the block with that question. *)
Fixpoint line_after (question : jsstring) (lines : list jsstring)
  : option jsstring :=
  match lines with
  | [] => None
  | l :: rest =>
      if bool_decide (l = question) then head rest else line_after question rest
  end.

Definition answer_line (report : jsstring) (b : Block) : option jsstring :=
  line_after (Block.pregunta b) (split_on 10 report).

(** ** Constants of the statements below *)

(** The position label of the specification: [i] in two decimal digits. *)
Definition two_digits (i : nat) : jsstring :=
  [digit_unit (N.of_nat (i / 10)); digit_unit (N.of_nat (i mod 10))].

(** The names and verdicts of the five catalog checks of the routine. *)
Definition catalog_checks (s : Storage) : option (list (jsstring * bool)) :=
  match runSmokeTests s with
  | Ok (results, _) => Some ((fun r => (name r, pass r)) <$> take 5 results)
  | Throw _ => None
  end.

(** The scenario of the specification: one padded answer, on block b5. *)
Definition scenario_answers : Answers :=
  {[ js "b5" := js "  Necesita mayor automatización  " ]}.

(** A storage with no room left, and one with room. *)
Definition exhausted : Storage := {| items := ∅; quota := 0 |}.
Definition roomy : Storage := {| items := ∅; quota := 5000000 |}.

(** The state of the round-trip example. *)
Definition persisted_example (focus : jsstring) : State :=
  {| answers := {[ js "b1" := js "ok" ]}; completed := [js "b1"];
     focusId := focus |}.

(** A string member as [JSON.parse] builds it. *)
Definition string_member (kv : jsstring * jsstring) : jsstring * json :=
  (kv.1, JString kv.2).

(** The value a written payload reads back as. *)
Definition json_of_payload (p : Persisted) : json :=
  JObject [(js "answers", JObject (string_member <$> map_to_list (p_answers p)));
           (js "completed", JArray (JString <$> p_completed p))].

(** A unit put in front of the text a string reader returns. *)
Definition cons_body (c : N) (r : option (jsstring * jsstring))
  : option (jsstring * jsstring) :=
  match r with
  | Some (body, rest) => Some (c :: body, rest)
  | None => None
  end.

(** The catalog id at a position given as an integer. *)
Definition id_at (i : Z) : option jsstring :=
  Block.id <$> BLOCKS !! Z.to_nat i.

(** Actions that leave the focus cell alone. *)
Definition keeps_focus (a : Action) : Prop :=
  match a with
  | SetFocusId _ => False
  | _ => True
  end.

(** The state before any input, focused on b1. *)
Definition fresh_state : State :=
  {| answers := ∅; completed := []; focusId := js "b1" |}.

(** A state whose first answer has a space on each side. *)
Definition padded_state : State :=
  {| answers := {[ js "b1" := js " a " ]}; completed := []; focusId := js "b1" |}.

Definition first_block : Block :=
  match BLOCKS with
  | b :: _ => b
  | [] => Block.mk [] [] [] []
  end.

(** ** Further code of the file and constants of its properties *)

(** ** Utilities (lines 26-27) *)

(** An argument of [cls]: a class string, [false], [null] or [undefined]. *)
Inductive ClassArg :=
  | ClassName (s : jsstring)
  | ClassFalse
  | ClassNull
  | ClassUndefined.

(** What [filter(Boolean)] keeps of an argument: a non-empty string. *)
Definition kept_class (a : ClassArg) : option jsstring :=
  match a with
  | ClassName s => if truthy_string s then Some s else None
  | ClassFalse | ClassNull | ClassUndefined => None
  end.

(** [cls(...arr)]: [arr.filter(Boolean).join(" ")] *)
Definition cls (arr : list ClassArg) : jsstring :=
  join (js " ") (omap kept_class arr).

(** The number of blocks of [l] with a non-empty trimmed answer. *)
Definition answered_count (a : Answers) (l : list Block) : nat :=
  length (filter (fun b => answered a b = true) l).

(** A storage whose saved text is not JSON. *)
Definition garbled : Storage :=
  {| items := {[ KEY := js "{oops" ]}; quota := 5000000 |}.

(** The storage after the save effect has written a given state. *)
Definition saved (st : State) : Storage :=
  {| items := {[ KEY := JSON_stringify {| p_answers := answers st;
                                          p_completed := completed st |} ]};
     quota := 5000000 |}.

Definition saved_fresh : Storage := saved fresh_state.
Definition saved_padded : Storage := saved padded_state.

(** [n] keydown events of the same kind, one after the other. *)
Fixpoint keydown_n (toLowerCase : jsstring -> jsstring) (captured : Answers)
    (e : KeyboardEvent) (n : nat) (st : State) : outcome State :=
  match n with
  | O => Ok st
  | S n' =>
      let* st' := keydown toLowerCase captured e st in
      keydown_n toLowerCase captured e n' st'
  end.

(** The three actions of an arrow key that lands on block [b]. *)
Definition focus_actions (b : Block) : list Action :=
  [PreventDefault; SetFocusId (Block.id b); ScrollToCard (Block.id b)].

(** The actions of the toggle and export branches of the listener. *)
Definition toggle_actions (toLowerCase : jsstring -> jsstring)
    (focus : jsstring) (e : KeyboardEvent) : list Action :=
  if (ctrlKey e || metaKey e)
     && bool_decide (toLowerCase (key e) = js "enter")
  then [PreventDefault; ToggleComplete focus]
  else [].

Definition export_actions (toLowerCase : jsstring -> jsstring)
    (captured : Answers) (e : KeyboardEvent) : list Action :=
  if altKey e
     && (bool_decide (toLowerCase (key e) = js "e")
         || bool_decide (toLowerCase (key e) = js "x"))
  then [PreventDefault; exportTXT captured]
  else [].

(** Ctrl+Enter and Alt+E as the browser reports them. *)
Definition CtrlEnter : KeyboardEvent :=
  {| key := js "Enter"; ctrlKey := true; metaKey := false; altKey := false |}.

Definition AltE : KeyboardEvent :=
  {| key := js "E"; ctrlKey := false; metaKey := false; altKey := true |}.

Definition PlainA : KeyboardEvent :=
  {| key := js "a"; ctrlKey := false; metaKey := false; altKey := false |}.

(** A state whose focus id is no catalog id. *)
Definition stray_state : State :=
  {| answers := ∅; completed := []; focusId := js "b99" |}.

(** The percentages of the counts 0 to 12. *)
Definition percent_table : list Z :=
  [0; 8; 17; 25; 33; 42; 50; 58; 67; 75; 83; 92; 100]%Z.

(** A state with two blocks marked complete. *)
Definition marked_state : State :=
  {| answers := ∅; completed := [js "b1"; js "b2"]; focusId := js "b1" |}.

Definition second_block : Block :=
  match BLOCKS with
  | _ :: b :: _ => b
  | _ => Block.mk [] [] [] []
  end.

(** * Properties *)

(** ** Strings *)

Lemma startsWith_prefix (sub s : jsstring) :
  startsWith s sub = true -> exists l2, s = sub ++ l2.
Proof.
  revert s. induction sub as [|c sub IH]; intros s H.
  - exists s. reflexivity.
  - destruct s as [|d s]; simpl in H; [discriminate|].
    apply andb_prop in H as [Hc Hs].
    apply N.eqb_eq in Hc. subst d.
    destruct (IH s Hs) as [l2 ->]. exists l2. reflexivity.
Qed.

Lemma includes_infix (s sub : jsstring) :
  includes s sub = true -> exists l1 l2, s = l1 ++ sub ++ l2.
Proof.
  induction s as [|d s IH]; intros H; cbn [includes] in H;
    apply orb_prop in H as [H|H]; try discriminate.
  - apply startsWith_prefix in H as [l2 ->]. exists [], l2. reflexivity.
  - apply startsWith_prefix in H as [l2 ->]. exists [], l2. reflexivity.
  - destruct (IH H) as (l1 & l2 & ->). exists (d :: l1), l2. reflexivity.
Qed.

Lemma startsWith_app (sub l2 : jsstring) : startsWith (sub ++ l2) sub = true.
Proof.
  induction sub as [|c sub IH]; [destruct l2; reflexivity|].
  cbn [app startsWith]. rewrite N.eqb_refl. exact IH.
Qed.

Lemma includes_unfold (s sub : jsstring) :
  includes s sub =
    startsWith s sub || match s with
                        | [] => false
                        | _ :: s' => includes s' sub
                        end.
Proof. destruct s; reflexivity. Qed.

(** [includes] finds every occurrence: it is true exactly when [sub] is an
    infix of [s]. *)
Lemma includes_iff (s sub : jsstring) :
  includes s sub = true <-> exists l1 l2, s = l1 ++ sub ++ l2.
Proof.
  split; [apply includes_infix|].
  intros (l1 & l2 & ->).
  induction l1 as [|d l1 IH].
  - rewrite includes_unfold. cbn [app]. rewrite startsWith_app. reflexivity.
  - rewrite includes_unfold. cbn [app]. rewrite IH. apply orb_true_r.
Qed.

Lemma trimStart_decompose (s : jsstring) :
  exists l, s = l ++ trimStart s /\ forallb isWhiteSpace l = true.
Proof.
  induction s as [|c s (l & Hs & Hl)].
  - exists []. split; reflexivity.
  - cbn [trimStart]. destruct (isWhiteSpace c) eqn:Hc.
    + exists (c :: l). split; [cbn [app]; congruence|].
      cbn [forallb]. rewrite Hc, Hl. reflexivity.
    + exists []. split; reflexivity.
Qed.

Lemma head_trimStart (s : jsstring) (c : N) :
  head (trimStart s) = Some c -> isWhiteSpace c = false.
Proof.
  induction s as [|d s IH]; [discriminate|].
  cbn [trimStart]. destruct (isWhiteSpace d) eqn:Hd; [exact IH|].
  intros [= <-]. exact Hd.
Qed.

Lemma trimEnd_decompose (s : jsstring) :
  exists r, s = trimEnd s ++ r /\ forallb isWhiteSpace r = true.
Proof.
  destruct (trimStart_decompose (rev s)) as (l & Hs & Hl).
  exists (rev l). split.
  - unfold trimEnd. rewrite <- rev_app_distr, <- Hs, rev_involutive. reflexivity.
  - rewrite forallb_forall in *. intros x Hx. apply Hl, in_rev, Hx.
Qed.

Lemma last_rev_head (x : jsstring) : last (rev x) = head x.
Proof. destruct x as [|a x]; [reflexivity|]. cbn [rev]. apply last_snoc. Qed.

Lemma last_trimEnd (s : jsstring) (c : N) :
  last (trimEnd s) = Some c -> isWhiteSpace c = false.
Proof.
  unfold trimEnd. rewrite last_rev_head. apply head_trimStart.
Qed.

(** [trim] removes white space from both ends and nothing else: what remains
    neither starts nor ends with white space. *)
Lemma trim_decompose (s : jsstring) :
  (exists l r, s = l ++ trim s ++ r
               /\ forallb isWhiteSpace l = true /\ forallb isWhiteSpace r = true)
  /\ (forall c, head (trim s) = Some c -> isWhiteSpace c = false)
  /\ (forall c, last (trim s) = Some c -> isWhiteSpace c = false).
Proof.
  destruct (trimStart_decompose s) as (l & Hs & Hl).
  destruct (trimEnd_decompose (trimStart s)) as (r & Ht & Hr).
  split; [|split].
  - exists l, r. unfold trim. rewrite <- Ht. auto.
  - intros c Hc. apply (head_trimStart s).
    rewrite Ht. unfold trim in Hc.
    destruct (trimEnd (trimStart s)); [discriminate|exact Hc].
  - intros c. apply last_trimEnd.
Qed.

Lemma length_trimStart (s : jsstring) : (length (trimStart s) <= length s)%nat.
Proof.
  induction s as [|c s IH]; simpl; [lia|].
  destruct (isWhiteSpace c); simpl; lia.
Qed.

Lemma length_trim (s : jsstring) : (length (trim s) <= length s)%nat.
Proof.
  unfold trim, trimEnd. rewrite length_rev.
  etransitivity; [apply length_trimStart|].
  rewrite length_rev. apply length_trimStart.
Qed.

Lemma or_else_empty (o : option jsstring) : or_else o [] = default [] o.
Proof. destruct o as [[|c s]|]; reflexivity. Qed.

Lemma join_cons (sep x : jsstring) (l : list jsstring) :
  l <> [] -> join sep (x :: l) = x ++ sep ++ join sep l.
Proof. destruct l; [congruence|reflexivity]. Qed.

(** ** The catalog *)

(** C4.  The catalog has exactly 12 blocks; their ids are pairwise
    distinct; the number of the block at 1-indexed position [i] is [i] in
    two digits followed by a period; every title and every question is
    non-empty, and every question contains the mark "¿". *)
Theorem catalog_invariants :
  length BLOCKS = 12%nat
  /\ NoDup (Block.id <$> BLOCKS)
  /\ Block.numero <$> BLOCKS = (fun i => two_digits i ++ js ".") <$> seq 1 12
  /\ Forall (fun b => Block.titulo b <> [] /\ Block.pregunta b <> []
                      /\ exists l1 l2, Block.pregunta b = l1 ++ js "¿" ++ l2)
       BLOCKS.
Proof.
  split; [reflexivity|].
  split; [apply (bool_decide_unpack _); vm_compute; reflexivity|].
  split; [vm_compute; reflexivity|].
  repeat constructor; try discriminate; apply includes_infix; vm_compute;
    reflexivity.
Qed.

(** ** The progress figures *)

Lemma truthy_trimmed_answer (a : Answers) (b : Block) :
  truthy_opt (trimmed_answer a b) = answered a b.
Proof.
  unfold trimmed_answer, answered, answer_of.
  destruct (a !! Block.id b); reflexivity.
Qed.

Lemma or_else_trimmed_answer (a : Answers) (b : Block) :
  or_else (trimmed_answer a b) SIN_RESPUESTA =
    if answered a b then trim (answer_of a b) else SIN_RESPUESTA.
Proof.
  unfold trimmed_answer, answered, answer_of.
  destruct (a !! Block.id b); reflexivity.
Qed.

(** The reducer counts the answered blocks of any list of blocks. *)
Lemma fold_count_step (a : Answers) (l : list Block) (n : nat) :
  fold_left (count_step a) l n =
    (n + length (filter (fun b => answered a b = true) l))%nat.
Proof.
  revert n. induction l as [|b l IH]; intros n; simpl.
  - lia.
  - rewrite IH. unfold count_step. rewrite truthy_trimmed_answer.
    rewrite filter_cons. destruct (answered a b); case_decide; try congruence;
      simpl; lia.
Qed.

Lemma filled_count (a : Answers) :
  filled a = length (filter (fun b => answered a b = true) BLOCKS).
Proof. unfold filled. rewrite fold_count_step. reflexivity. Qed.

Lemma filled_le_total (a : Answers) : (filled a <= 12)%nat.
Proof.
  rewrite filled_count.
  etransitivity; [apply length_filter|]. reflexivity.
Qed.

(** On the thirteen possible counts the double computation agrees with
    exact half-up rounding. *)
Lemma percent_of_twelve (n : nat) :
  (n <= 12)%nat ->
  percent_of n 12 =
    Integral (round_half_up (inject_Z (Z.of_nat n) / inject_Z (Z.of_nat 12) * 100)).
Proof.
  intros H.
  do 13 (destruct n as [|n]; [vm_compute; reflexivity|]).
  lia.
Qed.

(** C2.  [filled] is the number of catalog blocks whose trimmed answer is
    non-empty; toggling completion of any id leaves it unchanged; [total] is
    12; and the percentage is [filled / total * 100] rounded to the nearest
    integer, halves upwards. *)
Theorem progress_calculator_figures (st : State) :
  filled (answers st) =
    length (filter (fun b => answered (answers st) b = true) BLOCKS)
  /\ (forall id, filled (answers (onToggleComplete id st)) = filled (answers st))
  /\ total = 12%nat
  /\ progress (answers st) =
       Integral (round_half_up
                   (inject_Z (Z.of_nat (filled (answers st)))
                    / inject_Z (Z.of_nat total) * 100)).
Proof.
  split; [apply filled_count|].
  split; [reflexivity|].
  split; [reflexivity|].
  apply percent_of_twelve, filled_le_total.
Qed.

(** Marking block b2 complete without any text: [filled] stays 0 and the
    card of b2 shows as complete. *)
Lemma toggle_without_text :
  filled (answers (onToggleComplete (js "b2") fresh_state)) = 0%nat
  /\ Card.isComplete <$>
       (render_card (onToggleComplete (js "b2") fresh_state) <$> BLOCKS !! 1%nat)
     = Some true.
Proof. split; vm_compute; reflexivity. Qed.

Lemma percent_of_range (n : nat) :
  (n <= 12)%nat -> exists z, percent_of n 12 = Integral z /\ (0 <= z <= 100)%Z.
Proof.
  intros H.
  do 13 (destruct n as [|n]; [eexists; split; [vm_compute; reflexivity|lia]|]).
  lia.
Qed.

(** The figures stay in range: at most 12 answered blocks, a percentage
    between 0 and 100. *)
Lemma progress_in_range (a : Answers) :
  (filled a <= total)%nat
  /\ exists z, progress a = Integral z /\ (0 <= z <= 100)%Z.
Proof.
  split; [apply filled_le_total|].
  apply percent_of_range, filled_le_total.
Qed.

(** ** The report *)

(** The loop pushes the four lines of each block, in catalog order. *)
Lemma fold_push_block (a : Answers) (l : list Block) (acc : list jsstring) :
  fold_left (push_block a) l acc = acc ++ concat (block_group a <$> l).
Proof.
  revert acc. induction l as [|b l IH]; intros acc.
  - simpl. rewrite app_nil_r. reflexivity.
  - cbn [fold_left]. rewrite IH. unfold push_block, block_group.
    rewrite or_else_trimmed_answer, fmap_cons. cbn [concat].
    rewrite <- app_assoc. reflexivity.
Qed.

Lemma body_lines_not_nil (a : Answers) : body_lines a <> [].
Proof. unfold body_lines. discriminate. Qed.

(** The header ends with one line break and the body follows at once. *)
Lemma buildTXTContent_shape (a : Answers) :
  buildTXTContent a =
    TITLE ++ LF ++ progress_line a ++ LF ++ join LF (body_lines a).
Proof.
  unfold buildTXTContent. rewrite fold_push_block.
  change (fold_left (count_step a) BLOCKS 0%nat) with (filled a).
  change (percent_of (filled a) (length BLOCKS)) with (progress a).
  cbn [join app]. unfold progress_line, total, body_lines.
  rewrite <- !app_assoc. reflexivity.
Qed.

(** C1.  For every answers map the report is the title line, the progress
    line with the figures of the component, and the four lines of each
    block in catalog order, joined by single line breaks; the blank line
    that the specification places between the progress line and the first
    block is not there, so the report is never the specified text. *)
Theorem buildTXTContent_omits_blank_line (a : Answers) :
  buildTXTContent a = join LF ([TITLE; progress_line a] ++ body_lines a)
  /\ buildTXTContent a <> report_as_specified a.
Proof.
  pose proof (body_lines_not_nil a) as Hne.
  assert (Hcode : buildTXTContent a =
                  join LF ([TITLE; progress_line a] ++ body_lines a)).
  { rewrite buildTXTContent_shape. cbn [app].
    rewrite join_cons by discriminate.
    rewrite join_cons by assumption. reflexivity. }
  split; [exact Hcode|].
  rewrite Hcode. unfold report_as_specified. cbn [app].
  rewrite !join_cons by (try discriminate; assumption).
  intros Heq.
  apply (f_equal length) in Heq.
  rewrite !length_app in Heq.
  change (length LF) with 1%nat in Heq.
  change (length (@nil N)) with 0%nat in Heq. lia.
Qed.

(** The third line of the report on the empty answers map is the heading of
    the first block, where the specification has a blank line. *)
Lemma buildTXTContent_empty_third_line :
  split_on 10 (buildTXTContent ∅) !! 2%nat = Some (js "01. Barreras actuales")
  /\ split_on 10 (report_as_specified ∅) !! 2%nat = Some [].
Proof. split; vm_compute; reflexivity. Qed.

(** C3.  With the single answer "  Necesita mayor automatización  " on
    block b5, [filled] is 1 and the percentage is 8; in the report the
    answer line of b5 is the trimmed text and the answer line of each of the
    other 11 blocks is "[Sin respuesta]". *)
Theorem scenario_b5 :
  filled scenario_answers = 1%nat
  /\ progress scenario_answers = Integral 8
  /\ Forall (fun b =>
       answer_line (buildTXTContent scenario_answers) b =
         Some (if bool_decide (Block.id b = js "b5")
               then js "Necesita mayor automatización"
               else js "[Sin respuesta]")) BLOCKS
  /\ length (filter (fun b => Block.id b <> js "b5") BLOCKS) = 11%nat.
Proof.
  split; [vm_compute; reflexivity|].
  split; [vm_compute; reflexivity|].
  split; [|vm_compute; reflexivity].
  repeat constructor; vm_compute; reflexivity.
Qed.

(** ** The self-check routine *)

(** C10.  Whatever the storage, the routine returns its table, and of its
    five catalog checks the first four pass while the string spot-check
    fails: the question of the last block does not contain
    "baja adopción". *)
Theorem smoke_tests_spot_check_fails (s : Storage) :
  catalog_checks s =
    Some [(js "12 bloques", true);
          (js "IDs únicos", true);
          (js "Numeración secuencial", true);
          (js "Contenido no vacío y con ¿", true);
          (js "Spot-check cadenas", false)].
Proof.
  unfold catalog_checks, runSmokeTests.
  destruct (roundtrip_check s) as [r6 s'].
  vm_compute. reflexivity.
Qed.

(** The two halves of the spot-check on the shipped catalog. *)
Lemma spot_check_halves :
  (fun b => includes (Block.pregunta b) (js "presupuestales")) <$> BLOCKS !! 0%nat
    = Some true
  /\ (fun b => includes (Block.pregunta b) (js "baja adopción")) <$> BLOCKS !! 11%nat
    = Some false.
Proof. split; vm_compute; reflexivity. Qed.

(** The question of the last block has no occurrence of "baja adopción". *)
Lemma last_question_lacks_keyword :
  (exists b, BLOCKS !! 11%nat = Some b
             /\ ~ exists l1 l2, Block.pregunta b = l1 ++ js "baja adopción" ++ l2).
Proof.
  eexists. split; [reflexivity|].
  intros H. apply includes_iff in H. vm_compute in H. discriminate.
Qed.

(** On a storage with room the routine reports six passes and the failed
    spot-check. *)
Lemma smoke_tests_roomy :
  (fun r => pass r) <$> (match runSmokeTests roomy with
                         | Ok (results, _) => results
                         | Throw _ => []
                         end)
    = [true; true; true; true; false; true; true].
Proof. vm_compute. reflexivity. Qed.

(** With room in the storage the round-trip check of the routine passes and
    leaves the storage as it found it, the test key apart. *)
Lemma roundtrip_check_roomy :
  pass (roundtrip_check roomy).1 = true /\ (roundtrip_check roomy).2 = roomy.
Proof. split; vm_compute; reflexivity. Qed.

(** ** Persistence *)

(** *** Reading back what [JSON.stringify] wrote *)

Lemma hex_value_digit (d : N) : d < 16 -> hex_value (hex_digit d) = Some d.
Proof.
  intros H. unfold hex_digit, hex_value.
  destruct (N.ltb_spec d 10) as [Hd|Hd].
  - replace ((48 <=? 48 + d) && (48 + d <=? 57)) with true
      by (symmetry; apply andb_true_intro; split; apply N.leb_le; lia).
    f_equal. lia.
  - replace ((48 <=? 87 + d) && (87 + d <=? 57)) with false
      by (symmetry; apply andb_false_intro2; apply N.leb_gt; lia).
    replace ((97 <=? 87 + d) && (87 + d <=? 102)) with true
      by (symmetry; apply andb_true_intro; split; apply N.leb_le; lia).
    f_equal. lia.
Qed.

Lemma four_nibbles (c : N) :
  c < 65536 ->
  c / 4096 mod 16 * 4096 + c / 256 mod 16 * 256 + c / 16 mod 16 * 16 + c mod 16 = c.
Proof.
  intros H. zify. Z.to_euclidean_division_equations. lia.
Qed.

Lemma parse_unicode_escape (c : N) (tl : jsstring) :
  c < 65536 ->
  parse_string_body (unicode_escape c ++ tl) =
    match parse_string_body tl with
    | Some (body, rest) => Some (c :: body, rest)
    | None => None
    end.
Proof.
  intros H. unfold unicode_escape. cbn [app parse_string_body].
  change (92 =? 34) with false. change (92 =? 92) with true.
  change (117 =? 117) with true. cbv iota.
  rewrite !hex_value_digit by (apply N.mod_lt; lia).
  rewrite four_nibbles by assumption. reflexivity.
Qed.

Lemma parse_literal_unit (c : N) (tl : jsstring) :
  c <> 34 -> c <> 92 -> 32 <= c ->
  parse_string_body (c :: tl) = cons_body c (parse_string_body tl).
Proof.
  intros H34 H92 H32. cbn [parse_string_body].
  destruct (N.eqb_spec c 34); [contradiction|].
  destruct (N.eqb_spec c 92); [contradiction|].
  destruct (N.ltb_spec c 32); [lia|]. reflexivity.
Qed.

Lemma parse_quote_unit (c : N) (tl : jsstring) :
  parse_string_body (quote_unit c ++ tl) = cons_body c (parse_string_body tl).
Proof.
  unfold quote_unit.
  destruct (N.eqb_spec c 8) as [->|H8]; [reflexivity|].
  destruct (N.eqb_spec c 9) as [->|H9]; [reflexivity|].
  destruct (N.eqb_spec c 10) as [->|H10]; [reflexivity|].
  destruct (N.eqb_spec c 12) as [->|H12]; [reflexivity|].
  destruct (N.eqb_spec c 13) as [->|H13]; [reflexivity|].
  destruct (N.eqb_spec c 34) as [->|H34]; [reflexivity|].
  destruct (N.eqb_spec c 92) as [->|H92]; [reflexivity|].
  destruct (N.ltb_spec c 32) as [Hlt|Hge].
  { rewrite parse_unicode_escape by lia. reflexivity. }
  destruct (is_high_surrogate c || is_low_surrogate c) eqn:Hs.
  - rewrite parse_unicode_escape; [reflexivity|].
    unfold is_high_surrogate, is_low_surrogate in Hs.
    apply orb_prop in Hs as [Hs|Hs]; apply andb_prop in Hs as [_ Hs];
      apply N.leb_le in Hs; lia.
  - apply parse_literal_unit; assumption.
Qed.

Lemma surrogate_literal (c : N) :
  is_high_surrogate c = true \/ is_low_surrogate c = true ->
  c <> 34 /\ c <> 92 /\ 32 <= c.
Proof.
  unfold is_high_surrogate, is_low_surrogate.
  intros [H|H]; apply andb_prop in H as [H _]; apply N.leb_le in H; lia.
Qed.

Lemma quote_units_pair (c d : N) (s : jsstring) :
  quote_units (c :: d :: s) =
    if is_high_surrogate c && is_low_surrogate d
    then c :: d :: quote_units s
    else quote_unit c ++ quote_units (d :: s).
Proof. reflexivity. Qed.

(** Reading a written string gives the string back. *)
Lemma parse_quote_units (s rest : jsstring) :
  parse_string_body (quote_units s ++ 34 :: rest) = Some (s, rest).
Proof.
  remember (length s) as n eqn:Hn.
  revert s Hn. induction n as [n IH] using lt_wf_ind. intros s Hn.
  destruct s as [|c [|d s'']].
  - reflexivity.
  - cbn [quote_units]. rewrite parse_quote_unit. reflexivity.
  - rewrite quote_units_pair.
    destruct (is_high_surrogate c && is_low_surrogate d) eqn:Hpair.
    + apply andb_prop in Hpair as [Hc Hd].
      destruct (surrogate_literal c (or_introl Hc)) as (? & ? & ?).
      destruct (surrogate_literal d (or_intror Hd)) as (? & ? & ?).
      cbn [app]. rewrite !parse_literal_unit by assumption.
      rewrite (IH (length s'')); [reflexivity| |reflexivity].
      subst n. simpl. lia.
    + rewrite <- app_assoc, parse_quote_unit.
      rewrite (IH (length (d :: s''))); [reflexivity| |reflexivity].
      subst n. simpl. lia.
Qed.

Lemma skip_ws_quote (s tl : jsstring) :
  skip_ws (quote_json s ++ tl) = quote_json s ++ tl.
Proof. reflexivity. Qed.

Lemma parse_value_string (f : nat) (s rest : jsstring) :
  parse_value (S f) (quote_json s ++ rest) = Some (JString s, rest).
Proof.
  unfold quote_json. cbn [parse_value app skip_ws].
  change (34 =? 32) with false. change (34 =? 9) with false.
  change (34 =? 10) with false. change (34 =? 13) with false.
  cbn [orb]. cbv iota.
  change (34 =? 110) with false. change (34 =? 116) with false.
  change (34 =? 102) with false. change (34 =? 34) with true. cbv iota.
  rewrite <- app_assoc. cbn [app].
  rewrite parse_quote_units. reflexivity.
Qed.

Lemma parse_elements_unfold (f : nat) (s : jsstring) (acc : list json) :
  parse_elements (S f) s acc =
    match parse_value f s with
    | Some (v, rest) =>
        match skip_ws rest with
        | d :: rest' =>
            if d =? 44 then parse_elements f rest' (acc ++ [v])
            else if d =? 93 then Some (JArray (acc ++ [v]), rest')
            else None
        | [] => None
        end
    | None => None
    end.
Proof. reflexivity. Qed.

Lemma parse_elements_strings (l : list jsstring) :
  forall (f : nat) (acc : list json) (rest : jsstring),
  l <> [] -> (length l <= f)%nat ->
  parse_elements (S f) (join (js ",") (quote_json <$> l) ++ 93 :: rest) acc =
    Some (JArray (acc ++ (JString <$> l)), rest).
Proof.
  induction l as [|x l IH]; intros f acc rest Hne Hlen; [congruence|].
  destruct f as [|f]; [simpl in Hlen; lia|].
  rewrite parse_elements_unfold.
  destruct l as [|y l].
  - cbn [fmap list_fmap join].
    rewrite parse_value_string. reflexivity.
  - rewrite fmap_cons, join_cons by discriminate.
    rewrite <- !app_assoc, parse_value_string.
    change (skip_ws (js "," ++ join (js ",") (quote_json <$> y :: l) ++ 93 :: rest))
      with (44 :: (join (js ",") (quote_json <$> y :: l) ++ 93 :: rest)).
    change (44 =? 44) with true. cbv iota.
    rewrite IH; [|discriminate|simpl in *; lia].
    rewrite <- app_assoc. reflexivity.
Qed.

Lemma set_member_fresh (k : jsstring) (v : json) (acc : list (jsstring * json)) :
  k ∉ acc.*1 -> set_member k v acc = acc ++ [(k, v)].
Proof.
  induction acc as [|[k' v'] acc IH]; intros Hk; [reflexivity|].
  cbn [set_member]. rewrite fmap_cons in Hk. apply not_elem_of_cons in Hk as [Hne Hk].
  rewrite bool_decide_eq_false_2 by (cbn in Hne; congruence).
  rewrite IH by assumption. reflexivity.
Qed.

Lemma parse_members_unfold (f : nat) (s : jsstring) (acc : list (jsstring * json)) :
  parse_members (S f) s acc =
    match skip_ws s with
    | q :: s1 =>
        if q =? 34 then
          match parse_string_body s1 with
          | Some (k, s2) =>
              match skip_ws s2 with
              | colon :: s3 =>
                  if colon =? 58 then
                    match parse_value f s3 with
                    | Some (v, rest) =>
                        match skip_ws rest with
                        | d :: rest' =>
                            if d =? 44
                            then parse_members f rest' (set_member k v acc)
                            else if d =? 125
                            then Some (JObject (set_member k v acc), rest')
                            else None
                        | [] => None
                        end
                    | None => None
                    end
                  else None
              | [] => None
              end
          | None => None
          end
        else None
    | [] => None
    end.
Proof. reflexivity. Qed.

(** One member whose value reads as [v], then whatever follows it. *)
Lemma parse_member_value (f : nat) (k s3 rest : jsstring) (v : json)
    (acc : list (jsstring * json)) :
  parse_value f s3 = Some (v, rest) ->
  parse_members (S f) (quote_json k ++ 58 :: s3) acc =
    match skip_ws rest with
    | d :: rest' =>
        if d =? 44
        then parse_members f rest' (set_member k v acc)
        else if d =? 125
        then Some (JObject (set_member k v acc), rest')
        else None
    | [] => None
    end.
Proof.
  intros Hv. rewrite parse_members_unfold, skip_ws_quote.
  unfold quote_json. rewrite <- !app_assoc. cbn [app].
  change (34 =? 34) with true. cbv iota.
  rewrite parse_quote_units.
  change (skip_ws (58 :: s3)) with (58 :: s3).
  change (58 =? 58) with true. cbv iota.
  rewrite Hv. reflexivity.
Qed.

Lemma parse_member_head (f : nat) (kv : jsstring * jsstring) (tl : jsstring)
    (acc : list (jsstring * json)) :
  parse_members (S (S f)) (member_text kv ++ tl) acc =
    match skip_ws tl with
    | d :: rest' =>
        if d =? 44
        then parse_members (S f) rest' (set_member kv.1 (JString kv.2) acc)
        else if d =? 125
        then Some (JObject (set_member kv.1 (JString kv.2) acc), rest')
        else None
    | [] => None
    end.
Proof.
  unfold member_text. rewrite <- !app_assoc.
  change (js ":" ++ quote_json kv.2 ++ tl) with (58 :: (quote_json kv.2 ++ tl)).
  apply parse_member_value, parse_value_string.
Qed.

Lemma parse_members_strings (l : list (jsstring * jsstring)) :
  forall (f : nat) (acc : list (jsstring * json)) (rest : jsstring),
  l <> [] -> (length l <= f)%nat -> NoDup (acc.*1 ++ l.*1) ->
  parse_members (S f) (join (js ",") (member_text <$> l) ++ 125 :: rest) acc =
    Some (JObject (acc ++ (string_member <$> l)), rest).
Proof.
  induction l as [|kv l IH]; intros f acc rest Hne Hlen Hnd; [congruence|].
  destruct f as [|f]; [simpl in Hlen; lia|].
  assert (Hfresh : kv.1 ∉ acc.*1).
  { rewrite fmap_cons in Hnd. apply NoDup_app in Hnd as (_ & Hdis & _).
    intros Hin. apply (Hdis _ Hin). left. }
  destruct l as [|kv' l].
  - cbn [fmap list_fmap join].
    rewrite parse_member_head. cbn [skip_ws].
    change (125 =? 32) with false. change (125 =? 9) with false.
    change (125 =? 10) with false. change (125 =? 13) with false.
    cbn [orb]. cbv iota.
    change (125 =? 44) with false. change (125 =? 125) with true. cbv iota.
    rewrite set_member_fresh by assumption. reflexivity.
  - rewrite fmap_cons, join_cons by discriminate.
    rewrite <- !app_assoc, parse_member_head.
    change (skip_ws (js "," ++ join (js ",") (member_text <$> kv' :: l) ++ 125 :: rest))
      with (44 :: (join (js ",") (member_text <$> kv' :: l) ++ 125 :: rest)).
    change (44 =? 44) with true. cbv iota.
    rewrite set_member_fresh by assumption.
    rewrite IH; [| discriminate | simpl in *; lia |].
    + rewrite <- app_assoc. reflexivity.
    + rewrite fmap_app, <- app_assoc. exact Hnd.
Qed.

Lemma parse_value_braces (f : nat) (s : jsstring) :
  head s = Some 34 -> parse_value (S f) (123 :: s) = parse_members f s [].
Proof. destruct s as [|c s]; intros [= ->]. reflexivity. Qed.

Lemma parse_value_brackets (f : nat) (s : jsstring) :
  head s = Some 34 -> parse_value (S f) (91 :: s) = parse_elements f s [].
Proof. destruct s as [|c s]; intros [= ->]. reflexivity. Qed.

Lemma head_join_quoted {A : Type} (g : A -> jsstring) (x : A) (l : list A)
    (tl : jsstring) :
  head (g x) = Some 34 ->
  head (join (js ",") (g <$> x :: l) ++ tl) = Some 34.
Proof.
  intros Hg. rewrite fmap_cons.
  destruct (g x) as [|c gx] eqn:Hgx; [discriminate|].
  injection Hg as ->.
  destruct l; reflexivity.
Qed.

Lemma parse_value_object_strings (l : list (jsstring * jsstring)) (f : nat)
    (rest : jsstring) :
  (length l < f)%nat -> NoDup l.*1 ->
  parse_value (S f) (123 :: join (js ",") (member_text <$> l) ++ 125 :: rest) =
    Some (JObject (string_member <$> l), rest).
Proof.
  intros Hlen Hnd. destruct l as [|kv l]; [reflexivity|].
  rewrite parse_value_braces by (apply head_join_quoted; reflexivity).
  destruct f as [|f]; [lia|].
  rewrite parse_members_strings; [reflexivity|discriminate| |exact Hnd].
  simpl in *; lia.
Qed.

Lemma parse_value_array_strings (l : list jsstring) (f : nat) (rest : jsstring) :
  (length l < f)%nat ->
  parse_value (S f) (91 :: join (js ",") (quote_json <$> l) ++ 93 :: rest) =
    Some (JArray (JString <$> l), rest).
Proof.
  intros Hlen. destruct l as [|x l]; [reflexivity|].
  rewrite parse_value_brackets by (apply head_join_quoted; reflexivity).
  destruct f as [|f]; [lia|].
  rewrite parse_elements_strings; [reflexivity|discriminate|].
  simpl in *; lia.
Qed.

Lemma length_join_quoted {A : Type} (g : A -> jsstring) (l : list A) :
  (forall x, 1 <= length (g x))%nat ->
  (length l <= length (join (js ",") (g <$> l)))%nat.
Proof.
  intros Hg. induction l as [|x l IH]; [simpl; lia|].
  destruct l as [|y l].
  - cbn [fmap list_fmap join length]. specialize (Hg x). lia.
  - rewrite fmap_cons, join_cons by discriminate.
    rewrite !length_app. specialize (Hg x). simpl in *. lia.
Qed.


Lemma JSON_stringify_text (p : Persisted) :
  JSON_stringify p =
    123 :: (quote_json (js "answers") ++ 58 ::
      (123 :: join (js ",") (member_text <$> map_to_list (p_answers p)) ++ 125 ::
        (44 :: (quote_json (js "completed") ++ 58 ::
          (91 :: join (js ",") (quote_json <$> p_completed p) ++ 93 :: [125]))))).
Proof.
  unfold JSON_stringify. cbn [js]. 
  change (js "{") with [123]. change (js ":{") with [58; 123].
  change (js "},") with [125; 44]. change (js ":[") with [58; 91].
  change (js "]}") with [93; 125].
  rewrite <- ?app_assoc. reflexivity.
Qed.

Lemma length_quote_json (s : jsstring) : (1 <= length (quote_json s))%nat.
Proof. unfold quote_json. simpl. lia. Qed.

Lemma length_member_text (kv : jsstring * jsstring) :
  (1 <= length (member_text kv))%nat.
Proof. unfold member_text. rewrite length_app. pose proof (length_quote_json kv.1). lia. Qed.

Lemma truthy_JSON_stringify (p : Persisted) :
  truthy_string (JSON_stringify p) = true.
Proof. rewrite JSON_stringify_text. reflexivity. Qed.

(** [JSON.parse] reads back what [JSON.stringify] wrote, for every payload. *)
Lemma JSON_parse_stringify (p : Persisted) :
  JSON_parse (JSON_stringify p) = Ok (json_of_payload p).
Proof.
  unfold JSON_parse.
  pose proof (length_join_quoted member_text (map_to_list (p_answers p))
                length_member_text) as HA.
  pose proof (length_join_quoted quote_json (p_completed p) length_quote_json)
    as HC.
  rewrite JSON_stringify_text.
  set (A := map_to_list (p_answers p)) in *.
  set (C := p_completed p) in *.
  set (tailC := 91 :: join (js ",") (quote_json <$> C) ++ 93 :: [125]).
  set (tailA := 123 :: join (js ",") (member_text <$> A) ++ 125 ::
                  (44 :: (quote_json (js "completed") ++ 58 :: tailC))).
  set (text := 123 :: (quote_json (js "answers") ++ 58 :: tailA)).
  assert (Hfuel : exists f, (2 * length text + 2 = S (S (S (S f))))%nat
                            /\ (length A < S f)%nat /\ (length C < f)%nat).
  { exists (2 * length text - 2)%nat.
    assert (length A + length C + 2 <= length text)%nat; [|lia].
    subst text tailA tailC.
    repeat (cbn [length]; rewrite length_app). cbn [length]. lia. }
  destruct Hfuel as (f & -> & HfA & HfC).
  subst text.
  rewrite parse_value_braces by reflexivity.
  assert (HvA : parse_value (S (S f)) tailA =
                Some (JObject (string_member <$> A),
                      44 :: (quote_json (js "completed") ++ 58 :: tailC))).
  { subst tailA. apply parse_value_object_strings; [lia|].
    subst A. apply NoDup_fst_map_to_list. }
  rewrite (parse_member_value _ _ _ _ _ _ HvA).
  change (skip_ws (44 :: (quote_json (js "completed") ++ 58 :: tailC)))
    with (44 :: (quote_json (js "completed") ++ 58 :: tailC)).
  change (44 =? 44) with true. cbv iota.
  assert (HvC : parse_value (S f) tailC = Some (JArray (JString <$> C), [125])).
  { subst tailC. apply parse_value_array_strings. exact HfC. }
  rewrite (parse_member_value _ _ _ _ _ _ HvC).
  reflexivity.
Qed.

Lemma answers_of_string_members (l : list (jsstring * jsstring)) :
  answers_of_members (string_member <$> l) = Some (list_to_map l).
Proof.
  induction l as [|[k v] l IH]; [reflexivity|].
  rewrite fmap_cons. cbn [string_member fst snd answers_of_members].
  rewrite IH. reflexivity.
Qed.

Lemma strings_of_string_elems (l : list jsstring) :
  strings_of_elems (JString <$> l) = Some l.
Proof.
  induction l as [|x l IH]; [reflexivity|].
  rewrite fmap_cons. cbn [strings_of_elems]. rewrite IH. reflexivity.
Qed.

Lemma get_prop_payload (p : Persisted) :
  get_prop (json_of_payload p) (js "answers")
    = Ok (Some (JObject (string_member <$> map_to_list (p_answers p))))
  /\ get_prop (json_of_payload p) (js "completed")
    = Ok (Some (JArray (JString <$> p_completed p))).
Proof. split; reflexivity. Qed.

(** Loading after a successful save restores the answers and the completed
    list of any state. *)
Lemma save_then_load (st st0 : State) (s s' : Storage) :
  saveEffect st s = Ok s' ->
  loadEffect st0 s' =
    Loaded {| answers := answers st; completed := completed st;
              focusId := focusId st0 |}.
Proof.
  unfold saveEffect, setItem. intros Hsave.
  case_decide; [|discriminate]. injection Hsave as <-.
  unfold loadEffect, getItem. cbn [items].
  rewrite lookup_insert_eq.
  rewrite truthy_JSON_stringify, JSON_parse_stringify.
  destruct (get_prop_payload
              {| p_answers := answers st; p_completed := completed st |})
    as [-> ->].
  cbn [answers_or_default completed_or_default p_answers p_completed].
  rewrite answers_of_string_members, strings_of_string_elems.
  rewrite list_to_map_to_list. reflexivity.
Qed.

(** *** The effects *)

Lemma used_insert_empty (k v : jsstring) :
  used (<[k := v]> ∅) = N.of_nat (length k) + N.of_nat (length v).
Proof.
  unfold used. rewrite insert_empty, map_fold_singleton. lia.
Qed.

(** C5.  On a storage with no room left the save effect throws
    [QuotaExceededError] for every state: the write is not guarded, and the
    error leaves the effect. *)
Theorem saveEffect_throws_when_quota_exhausted (st : State) :
  saveEffect st exhausted = Throw QuotaExceededError.
Proof.
  unfold saveEffect, setItem, exhausted. cbn [items quota].
  rewrite used_insert_empty.
  case_decide as H; [|reflexivity].
  change (length KEY) with 27%nat in H. lia.
Qed.

(** The same failed write inside the [try] block of the self-check is
    caught and reported. *)
Lemma roundtrip_check_catches :
  roundtrip_check exhausted =
    ({| name := js "localStorage roundtrip"; pass := false;
        info := InfoError QuotaExceededError |}, exhausted).
Proof. vm_compute. reflexivity. Qed.

(** Whenever its write succeeds, the round-trip check of the self-check
    passes, and it removes the test key again. *)
Lemma roundtrip_check_passes (s s1 : Storage) :
  setItem (KEY ++ js "_test")
    (JSON_stringify {| p_answers := {[ js "b1" := js "ok" ]};
                       p_completed := [js "b1"] |}) s = Ok s1 ->
  roundtrip_check s =
    ({| name := js "localStorage roundtrip"; pass := true; info := NoInfo |},
     removeItem (KEY ++ js "_test") s1).
Proof.
  intros Hset. unfold roundtrip_check. rewrite Hset.
  unfold setItem in Hset. case_decide; [|discriminate]. injection Hset as <-.
  unfold getItem. cbn [items]. rewrite lookup_insert_eq.
  unfold or_else. rewrite truthy_JSON_stringify, JSON_parse_stringify.
  destruct (get_prop_payload
              {| p_answers := {[ js "b1" := js "ok" ]};
                 p_completed := [js "b1"] |}) as [-> _].
  reflexivity.
Qed.

(** C6.  If saving the state with answers {"b1": "ok"} and completed
    ["b1"] succeeds, loading from the resulting storage gives a state whose
    answer for "b1" is exactly "ok" (and whose completed list is ["b1"]). *)
Theorem persist_then_load_roundtrip
    (focus : jsstring) (st0 : State) (s s' : Storage) :
  saveEffect (persisted_example focus) s = Ok s' ->
  exists st', loadEffect st0 s' = Loaded st'
              /\ answers st' !! js "b1" = Some (js "ok")
              /\ completed st' = [js "b1"].
Proof.
  intros Hsave. eexists. split; [exact (save_then_load _ st0 _ _ Hsave)|].
  split; reflexivity.
Qed.

(** The hypothesis holds on a storage with room. *)
Lemma persist_then_load_roundtrip_witness :
  saveEffect (persisted_example (js "b1")) roomy
    = Ok {| items := {[ KEY := JSON_stringify
                                 {| p_answers := {[ js "b1" := js "ok" ]};
                                    p_completed := [js "b1"] |} ]};
            quota := 5000000 |}
  /\ exists st',
       loadEffect (persisted_example (js "b3"))
         {| items := {[ KEY := JSON_stringify
                                 {| p_answers := {[ js "b1" := js "ok" ]};
                                    p_completed := [js "b1"] |} ]};
            quota := 5000000 |} = Loaded st'
       /\ answers st' !! js "b1" = Some (js "ok")
       /\ completed st' = [js "b1"].
Proof.
  assert (H : saveEffect (persisted_example (js "b1")) roomy
    = Ok {| items := {[ KEY := JSON_stringify
                                 {| p_answers := {[ js "b1" := js "ok" ]};
                                    p_completed := [js "b1"] |} ]};
            quota := 5000000 |}).
  { vm_compute. reflexivity. }
  split; [exact H|].
  exact (persist_then_load_roundtrip _ _ _ _ H).
Defined.

(** ** Keyboard navigation *)

Lemma focus_after_actions (rest : list Action) (st : State) (id : jsstring) :
  Forall keeps_focus rest ->
  focusId st = id ->
  focusId (fold_left perform rest st) = id.
Proof.
  revert st. induction rest as [|a rest IH]; intros st Hall Hid; [assumption|].
  inversion Hall as [|? ? Ha Hrest]; subst.
  cbn [fold_left]. apply IH; [assumption|].
  destruct a; try contradiction; reflexivity.
Qed.

(** Ids are distinct, so [findIndex] finds the position of the focused
    block. *)
Lemma findIndex_catalog (i : nat) (b : Block) :
  BLOCKS !! i = Some b ->
  findIndex (fun b' => Block.id b' = Block.id b) BLOCKS = Z.of_nat i.
Proof.
  intros Hi.
  do 12 (destruct i as [|i]; [injection Hi as <-; vm_compute; reflexivity|]).
  discriminate.
Qed.

Lemma at_index_Z_catalog (z : Z) :
  (0 <= z < 12)%Z ->
  exists b, at_index_Z BLOCKS z = Ok b /\ BLOCKS !! Z.to_nat z = Some b.
Proof.
  intros Hz. unfold at_index_Z, at_index.
  destruct (Z.ltb_spec z 0); [lia|].
  destruct (lookup_lt_is_Some_2 BLOCKS (Z.to_nat z)) as [b Hb].
  { change (length BLOCKS) with 12%nat. lia. }
  exists b. rewrite Hb. split; reflexivity.
Qed.

(** A listener run that moves the focus to [b] and then only performs
    actions that keep it. *)
Lemma keydown_focus (toLowerCase : jsstring -> jsstring) (captured : Answers)
    (e : KeyboardEvent) (st : State) (b : Block) (tail : list Action) :
  h toLowerCase (focusId st) captured e
    = Ok ([PreventDefault; SetFocusId (Block.id b); ScrollToCard (Block.id b)]
          ++ tail) ->
  Forall keeps_focus tail ->
  exists st', keydown toLowerCase captured e st = Ok st'
              /\ focusId st' = Block.id b.
Proof.
  intros Hh Htail. unfold keydown. rewrite Hh. cbn [bind app fold_left perform].
  eexists; split; [reflexivity|].
  apply focus_after_actions; [assumption|reflexivity].
Qed.

(** The toggle and export branches never set the focus. *)
Lemma tail_keeps_focus (toLowerCase : jsstring -> jsstring) (captured : Answers)
    (e : KeyboardEvent) (focus : jsstring) :
  Forall keeps_focus
    ((if (ctrlKey e || metaKey e)
         && bool_decide (toLowerCase (key e) = js "enter")
      then [PreventDefault; ToggleComplete focus] else [])
     ++ (if altKey e
            && (bool_decide (toLowerCase (key e) = js "e")
                || bool_decide (toLowerCase (key e) = js "x"))
         then [PreventDefault; exportTXT captured] else [])).
Proof.
  apply Forall_app; split.
  - destruct (_ && _); repeat constructor.
  - destruct (_ && _); repeat constructor.
Qed.

(** C7.  When the focused block is the one at catalog index [i], ArrowDown
    moves the focus to index min(11, i+1) and ArrowUp to index max(0, i-1),
    whatever the modifier keys, so the focus stops at either end; and the
    initial focus is the first block. *)
Theorem keyboard_focus_clamped
    (toLowerCase : jsstring -> jsstring) (captured : Answers)
    (ctrl meta alt : bool) (st : State) (i : nat) (b : Block) :
  BLOCKS !! i = Some b ->
  focusId st = Block.id b ->
  (exists st', keydown toLowerCase captured (ArrowDown ctrl meta alt) st = Ok st'
               /\ Some (focusId st') = id_at (Z.min 11 (Z.of_nat i + 1)))
  /\ (exists st', keydown toLowerCase captured (ArrowUp ctrl meta alt) st = Ok st'
               /\ Some (focusId st') = id_at (Z.max 0 (Z.of_nat i - 1)))
  /\ (exists st0, initial_state = Ok st0 /\ Some (focusId st0) = id_at 0).
Proof.
  intros Hi Hfocus.
  assert (Hlt : (i < 12)%nat).
  { apply lookup_lt_Some in Hi. exact Hi. }
  split; [|split].
  - destruct (at_index_Z_catalog (Z.min 11 (Z.of_nat i + 1)))
      as (b' & Hat & Hb'); [lia|].
    edestruct (keydown_focus toLowerCase captured (ArrowDown ctrl meta alt) st b')
      as (st' & Hkd & Hf).
    + unfold h. rewrite Hfocus, (findIndex_catalog i b Hi).
      change (Z.of_nat (length BLOCKS) - 1)%Z with 11%Z.
      change (bool_decide (key (ArrowDown ctrl meta alt) = js "ArrowDown"))
        with true.
      change (bool_decide (key (ArrowDown ctrl meta alt) = js "ArrowUp"))
        with false.
      cbv iota. rewrite Hat. cbn [bind app]. reflexivity.
    + apply tail_keeps_focus.
    + exists st'. split; [exact Hkd|]. unfold id_at. rewrite Hb', Hf. reflexivity.
  - destruct (at_index_Z_catalog (Z.max 0 (Z.of_nat i - 1)))
      as (b' & Hat & Hb'); [lia|].
    edestruct (keydown_focus toLowerCase captured (ArrowUp ctrl meta alt) st b')
      as (st' & Hkd & Hf).
    + unfold h. rewrite Hfocus, (findIndex_catalog i b Hi).
      change (bool_decide (key (ArrowUp ctrl meta alt) = js "ArrowDown"))
        with false.
      change (bool_decide (key (ArrowUp ctrl meta alt) = js "ArrowUp"))
        with true.
      cbv iota. rewrite Hat. cbn [bind app]. reflexivity.
    + apply tail_keeps_focus.
    + exists st'. split; [exact Hkd|]. unfold id_at. rewrite Hb', Hf. reflexivity.
  - eexists. split; reflexivity.
Qed.

(** The hypotheses hold for the first block and a state focused on it. *)
Lemma keyboard_focus_clamped_witness :
  BLOCKS !! 0%nat = Some first_block
  /\ focusId padded_state = Block.id first_block
  /\ (exists st',
        keydown ascii_toLowerCase ∅ (ArrowDown false false false) padded_state
          = Ok st'
        /\ Some (focusId st') = id_at (Z.min 11 (Z.of_nat 0 + 1)))
  /\ (exists st',
        keydown ascii_toLowerCase ∅ (ArrowUp false false false) padded_state
          = Ok st'
        /\ Some (focusId st') = id_at (Z.max 0 (Z.of_nat 0 - 1)))
  /\ (exists st0, initial_state = Ok st0 /\ Some (focusId st0) = id_at 0).
Proof.
  split; [reflexivity|]. split; [reflexivity|].
  apply (keyboard_focus_clamped ascii_toLowerCase ∅ false false false
           padded_state 0 first_block); reflexivity.
Defined.

(** At the last block ArrowDown keeps the focus, and at the first block
    ArrowUp keeps it. *)
Lemma focus_stops_at_the_ends :
  focusId <$> (match keydown ascii_toLowerCase ∅ (ArrowDown false false false)
                       (setFocusId (js "b12") padded_state) with
               | Ok st' => Some st'
               | Throw _ => None
               end) = Some (js "b12")
  /\ focusId <$> (match keydown ascii_toLowerCase ∅ (ArrowUp false false false)
                          (setFocusId (js "b1") padded_state) with
                  | Ok st' => Some st'
                  | Throw _ => None
                  end) = Some (js "b1").
Proof. split; vm_compute; reflexivity. Qed.

(** ** Card actions *)

(** C8.  The clear action of a card sets the answer of its block to the
    empty string, leaves the answer of every other id as it was, and leaves
    the completed list (so also the membership of the cleared id) and the
    focus unchanged. *)
Theorem limpiar_frame (st : State) (b : Block) :
  answers (onClickLimpiar b st) !! Block.id b = Some []
  /\ (forall id, id <> Block.id b ->
        answers (onClickLimpiar b st) !! id = answers st !! id)
  /\ completed (onClickLimpiar b st) = completed st
  /\ focusId (onClickLimpiar b st) = focusId st.
Proof.
  unfold onClickLimpiar, onChange. cbn [answers completed focusId].
  split; [apply lookup_insert_eq|].
  split; [intros id Hne; apply lookup_insert_ne; congruence|].
  split; reflexivity.
Qed.

(** C9, as stated, fails: with the stored answer " a " (three code units)
    the card shows the count 1. *)
Lemma card_count_not_stored_length :
  answers padded_state !! Block.id first_block = Some (js " a ")
  /\ length (js " a ") = 3%nat
  /\ Card.count (render_card padded_state first_block) = 1%nat
  /\ Card.count (render_card padded_state first_block) <> length (js " a ").
Proof. vm_compute. repeat split. discriminate. Qed.

(** C9, amended.  The count a card shows is the length of its answer after
    trimming surrounding white space; it never exceeds the length of the
    answer as stored. *)
Theorem card_count_trimmed (st : State) (b : Block) :
  Card.count (render_card st b) = length (trim (answer_of (answers st) b))
  /\ (Card.count (render_card st b) <= length (answer_of (answers st) b))%nat.
Proof.
  assert (H : Card.count (render_card st b)
              = length (trim (answer_of (answers st) b))).
  { unfold render_card, answer_of. cbn [Card.count].
    rewrite or_else_empty. reflexivity. }
  split; [exact H|]. rewrite H. apply length_trim.
Qed.

(** * Further properties of the code *)

(** ** Class strings *)

Lemma join_app (sep : jsstring) (l1 l2 : list jsstring) :
  l1 <> [] -> l2 <> [] ->
  join sep (l1 ++ l2) = join sep l1 ++ sep ++ join sep l2.
Proof.
  induction l1 as [|x l1 IH]; intros H1 H2; [congruence|].
  destruct l1 as [|y l1].
  - cbn [app]. rewrite join_cons by assumption. reflexivity.
  - change ((x :: y :: l1) ++ l2) with (x :: ((y :: l1) ++ l2)).
    rewrite (join_cons sep x ((y :: l1) ++ l2)) by discriminate.
    rewrite IH by (try discriminate; assumption).
    rewrite (join_cons sep x (y :: l1)) by discriminate.
    rewrite <- !app_assoc. reflexivity.
Qed.

Lemma kept_class_truthy (a : ClassArg) (s : jsstring) :
  kept_class a = Some s -> s <> [].
Proof.
  destruct a as [t| | |]; try discriminate. cbn [kept_class].
  destruct t; [discriminate|]. intros [= <-]. discriminate.
Qed.

Lemma join_kept_nil (arr : list ClassArg) :
  cls arr = [] -> omap kept_class arr = [].
Proof.
  unfold cls. destruct (omap kept_class arr) as [|x l] eqn:Hk; [reflexivity|].
  intros Hj. exfalso.
  assert (Hx : x <> []).
  { assert (Hin : x ∈ omap kept_class arr) by (rewrite Hk; left).
    apply list_elem_of_omap in Hin as (a & _ & Ha).
    exact (kept_class_truthy a x Ha). }
  destruct l as [|y l]; [exact (Hx Hj)|].
  rewrite join_cons in Hj by discriminate.
  destruct x; [congruence|discriminate].
Qed.

(** X1.  The class string of two argument lists put together is the two
    class strings with one space between them, and just the other one when
    one of them is empty: skipped arguments leave no stray space. *)
Theorem cls_app (l1 l2 : list ClassArg) :
  cls (l1 ++ l2) =
    if bool_decide (cls l1 = []) then cls l2
    else if bool_decide (cls l2 = []) then cls l1
    else cls l1 ++ js " " ++ cls l2.
Proof.
  case_bool_decide as H1.
  - apply join_kept_nil in H1. unfold cls. rewrite omap_app, H1. reflexivity.
  - case_bool_decide as H2.
    + apply join_kept_nil in H2. unfold cls. rewrite omap_app, H2, app_nil_r.
      reflexivity.
    + unfold cls in *. rewrite omap_app. apply join_app.
      * intros E. rewrite E in H1. exact (H1 eq_refl).
      * intros E. rewrite E in H2. exact (H2 eq_refl).
Qed.

(** [false], [null], [undefined] and the empty string are dropped wherever
    they stand. *)
Lemma cls_skips_falsy (l1 l2 : list ClassArg) :
  cls (l1 ++ ClassFalse :: l2) = cls (l1 ++ l2)
  /\ cls (l1 ++ ClassNull :: l2) = cls (l1 ++ l2)
  /\ cls (l1 ++ ClassUndefined :: l2) = cls (l1 ++ l2)
  /\ cls (l1 ++ ClassName [] :: l2) = cls (l1 ++ l2).
Proof.
  unfold cls. rewrite !omap_app. repeat split.
Qed.

(** ** The completion toggle *)

(** X2.  Toggling an id flips whether it is in the completed list (when it
    was there, every occurrence goes), keeps the membership of every other
    id, and leaves answers and focus alone. *)
Theorem onToggleComplete_flips (id : jsstring) (st : State) :
  (id ∈ completed (onToggleComplete id st) <-> id ∉ completed st)
  /\ (forall other, other <> id ->
        (other ∈ completed (onToggleComplete id st) <-> other ∈ completed st))
  /\ answers (onToggleComplete id st) = answers st
  /\ focusId (onToggleComplete id st) = focusId st.
Proof.
  unfold onToggleComplete. cbn [completed answers focusId].
  case_bool_decide as Hin.
  - split; [|split; [|split; reflexivity]].
    + rewrite list_elem_of_filter. split; [intros [Hne _]; congruence|tauto].
    + intros other Hne. rewrite list_elem_of_filter. tauto.
  - split; [|split; [|split; reflexivity]].
    + rewrite elem_of_app, list_elem_of_singleton. tauto.
    + intros other Hne. rewrite elem_of_app, list_elem_of_singleton. tauto.
Qed.

Lemma onToggleComplete_NoDup (id : jsstring) (st : State) :
  NoDup (completed st) -> NoDup (completed (onToggleComplete id st)).
Proof.
  intros Hnd. unfold onToggleComplete. cbn [completed].
  case_bool_decide as Hin.
  - apply NoDup_filter, Hnd.
  - apply NoDup_app. split; [exact Hnd|]. split; [|apply NoDup_singleton].
    intros x Hx Hx'. apply list_elem_of_singleton in Hx'. subst x. exact (Hin Hx).
Qed.

Lemma filter_ne_absent (id : jsstring) (l : list jsstring) :
  id ∉ l -> filter (fun x => x <> id) l = l.
Proof.
  induction l as [|x l IH]; intros Hid; [reflexivity|].
  apply not_elem_of_cons in Hid as [Hne Hid].
  rewrite filter_cons, decide_True by congruence. rewrite IH by assumption.
  reflexivity.
Qed.

(** X3.  On a completed list without duplicates, toggling keeps it without
    duplicates, and toggling the same id twice gives the list back up to
    order. *)
Theorem onToggleComplete_twice (id : jsstring) (st : State) :
  NoDup (completed st) ->
  NoDup (completed (onToggleComplete id st))
  /\ completed (onToggleComplete id (onToggleComplete id st)) ≡ₚ completed st.
Proof.
  intros Hnd. split; [apply onToggleComplete_NoDup, Hnd|].
  unfold onToggleComplete. cbn [completed].
  destruct (bool_decide (id ∈ completed st)) eqn:Hin.
  - apply bool_decide_eq_true in Hin.
    rewrite bool_decide_eq_false_2
      by (rewrite list_elem_of_filter; intros [Hne _]; congruence).
    apply list_elem_of_split in Hin as (l1 & l2 & Hl). rewrite Hl in *.
    apply NoDup_app in Hnd as (_ & Hdis & Hnd2).
    apply NoDup_cons in Hnd2 as [Hid2 _].
    assert (Hid1 : id ∉ l1) by (intros H; apply (Hdis _ H); left).
    rewrite filter_app, filter_cons, decide_False by (intros H; congruence).
    rewrite !filter_ne_absent by assumption.
    rewrite <- Permutation_cons_append. apply Permutation_middle.
  - apply bool_decide_eq_false in Hin.
    rewrite bool_decide_eq_true_2
      by (rewrite elem_of_app, list_elem_of_singleton; tauto).
    rewrite filter_app, filter_ne_absent by assumption.
    rewrite filter_cons, decide_False by (intros H; congruence).
    rewrite filter_nil, app_nil_r. reflexivity.
Qed.

(** ** Editing a card *)

(** Two catalog positions with the same id are the same position. *)
Lemma catalog_id_inj (i j : nat) (b b' : Block) :
  BLOCKS !! i = Some b -> BLOCKS !! j = Some b' ->
  Block.id b = Block.id b' -> i = j.
Proof.
  intros Hi Hj Hid.
  assert (Hnd : NoDup (Block.id <$> BLOCKS))
    by (apply (bool_decide_unpack _); vm_compute; reflexivity).
  apply (NoDup_lookup _ i j (Block.id b) Hnd).
  - rewrite list_lookup_fmap, Hi. reflexivity.
  - rewrite list_lookup_fmap, Hj, Hid. reflexivity.
Qed.

Lemma onToggleComplete_twice_witness :
  NoDup (completed marked_state)
  /\ NoDup (completed (onToggleComplete (js "b1") marked_state))
  /\ completed (onToggleComplete (js "b1")
                  (onToggleComplete (js "b1") marked_state))
     ≡ₚ completed marked_state.
Proof.
  assert (H : NoDup (completed marked_state)).
  { apply (bool_decide_unpack _). vm_compute. reflexivity. }
  split; [exact H|].
  exact (onToggleComplete_twice (js "b1") marked_state H).
Defined.

(** X4.  Typing [v] into the card of a catalog block shows [v] in that card
    and changes no other card of the catalog. *)
Theorem onChange_card (st : State) (v : jsstring) (i j : nat) (b b' : Block) :
  BLOCKS !! i = Some b -> BLOCKS !! j = Some b' ->
  Card.value (render_card (onChange (Block.id b) v st) b) = v
  /\ (i <> j -> render_card (onChange (Block.id b) v st) b' = render_card st b').
Proof.
  intros Hi Hj. split.
  - unfold render_card, onChange. cbn [answers Card.value].
    rewrite lookup_insert_eq. destruct v; reflexivity.
  - intros Hne. unfold render_card, onChange. cbn [answers completed].
    rewrite lookup_insert_ne; [reflexivity|].
    intros Hid. apply Hne. exact (catalog_id_inj i j b b' Hi Hj Hid).
Qed.

Lemma onChange_card_witness :
  BLOCKS !! 0%nat = Some first_block
  /\ BLOCKS !! 1%nat = Some second_block
  /\ Card.value (render_card (onChange (Block.id first_block) (js "hola")
                                padded_state) first_block) = js "hola"
  /\ (0%nat <> 1%nat ->
       render_card (onChange (Block.id first_block) (js "hola") padded_state)
         second_block
       = render_card padded_state second_block).
Proof.
  split; [reflexivity|]. split; [reflexivity|].
  apply (onChange_card padded_state (js "hola") 0 1 first_block second_block);
    reflexivity.
Defined.

Lemma answered_count_cons (a : Answers) (b : Block) (l : list Block) :
  answered_count a (b :: l) =
    ((if answered a b then 1 else 0) + answered_count a l)%nat.
Proof.
  unfold answered_count. rewrite filter_cons.
  destruct (answered a b); case_decide; try congruence; reflexivity.
Qed.

Lemma answered_insert_ne (a : Answers) (k v : jsstring) (b : Block) :
  Block.id b <> k -> answered (<[k := v]> a) b = answered a b.
Proof.
  intros Hne. unfold answered, answer_of. rewrite lookup_insert_ne by congruence.
  reflexivity.
Qed.

Lemma answered_insert_eq (a : Answers) (v : jsstring) (b : Block) :
  answered (<[Block.id b := v]> a) b = truthy_string (trim v).
Proof. unfold answered, answer_of. rewrite lookup_insert_eq. reflexivity. Qed.

Lemma answered_count_insert_absent (a : Answers) (k v : jsstring) (l : list Block) :
  k ∉ Block.id <$> l ->
  answered_count (<[k := v]> a) l = answered_count a l.
Proof.
  induction l as [|x l IH]; intros Hk; [reflexivity|].
  rewrite fmap_cons in Hk. apply not_elem_of_cons in Hk as [Hne Hk].
  rewrite !answered_count_cons, IH by assumption.
  rewrite answered_insert_ne by congruence. reflexivity.
Qed.

Lemma answered_count_insert_present (a : Answers) (v : jsstring) (b : Block)
    (l : list Block) :
  NoDup (Block.id <$> l) -> b ∈ l ->
  (answered_count (<[Block.id b := v]> a) l + (if answered a b then 1 else 0)
   = answered_count a l + (if truthy_string (trim v) then 1 else 0))%nat.
Proof.
  induction l as [|x l IH]; intros Hnd Hin; [inversion Hin|].
  rewrite fmap_cons in Hnd. apply NoDup_cons in Hnd as [Hx Hnd].
  rewrite !answered_count_cons.
  destruct (decide (Block.id x = Block.id b)) as [Heq|Hne].
  - rewrite Heq in Hx.
    rewrite answered_count_insert_absent by assumption.
    assert (Hax : answered a x = answered a b).
    { unfold answered, answer_of. rewrite Heq. reflexivity. }
    assert (Hax' : answered (<[Block.id b := v]> a) x = truthy_string (trim v)).
    { unfold answered, answer_of. rewrite Heq, lookup_insert_eq. reflexivity. }
    rewrite Hax, Hax'. lia.
  - apply elem_of_cons in Hin as [->|Hin]; [congruence|].
    rewrite answered_insert_ne by assumption.
    specialize (IH Hnd Hin). lia.
Qed.

(** X5.  An edit of one catalog card moves [filled] by that card alone: the
    new count is the old one, less one if the card was answered, plus one if
    the new text is non-empty once trimmed. *)
Theorem filled_after_onChange (st : State) (v : jsstring) (i : nat) (b : Block) :
  BLOCKS !! i = Some b ->
  (filled (answers (onChange (Block.id b) v st))
     + (if answered (answers st) b then 1 else 0)
   = filled (answers st) + (if truthy_string (trim v) then 1 else 0))%nat.
Proof.
  intros Hi. rewrite !filled_count. unfold onChange. cbn [answers].
  apply (answered_count_insert_present (answers st) v b BLOCKS).
  - apply (bool_decide_unpack _). vm_compute. reflexivity.
  - apply list_elem_of_lookup. exists i. exact Hi.
Qed.

Lemma filled_after_onChange_witness :
  BLOCKS !! 0%nat = Some first_block
  /\ (filled (answers (onChange (Block.id first_block) (js "hola") padded_state))
        + (if answered (answers padded_state) first_block then 1 else 0)
      = filled (answers padded_state)
        + (if truthy_string (trim (js "hola")) then 1 else 0))%nat.
Proof.
  split; [reflexivity|].
  apply (filled_after_onChange padded_state (js "hola") 0 first_block).
  reflexivity.
Defined.

(** X6.  An answer stored under an id that is no catalog id never counts
    towards [filled]. *)
Theorem filled_ignores_orphans (a : Answers) (k v : jsstring) :
  k ∉ Block.id <$> BLOCKS -> filled (<[k := v]> a) = filled a.
Proof.
  intros Hk. rewrite !filled_count.
  apply (answered_count_insert_absent a k v BLOCKS Hk).
Qed.

Lemma filled_ignores_orphans_witness :
  (js "b99" ∉ Block.id <$> BLOCKS)
  /\ filled (<[js "b99" := js "hola"]> scenario_answers) = filled scenario_answers.
Proof.
  assert (H : js "b99" ∉ Block.id <$> BLOCKS).
  { apply (bool_decide_unpack _). vm_compute. reflexivity. }
  split; [exact H|].
  exact (filled_ignores_orphans scenario_answers (js "b99") (js "hola") H).
Defined.

(** ** The percentage *)

(** The percentage for each possible count. *)
Lemma percent_of_table (k : nat) :
  (k <= 12)%nat ->
  percent_of k 12 = Integral (nth k percent_table 0%Z).
Proof.
  intros Hk. do 13 (destruct k as [|k]; [vm_compute; reflexivity|]). lia.
Qed.

Lemma percent_table_order (n m : nat) :
  (n <= 12)%nat -> (m <= 12)%nat ->
  ((nth n percent_table 0 <= nth m percent_table 0)%Z <-> (n <= m)%nat)
  /\ ((nth n percent_table 0 < nth m percent_table 0)%Z <-> (n < m)%nat)
  /\ (nth n percent_table 0%Z = 0%Z <-> n = 0%nat)
  /\ (nth n percent_table 0%Z = 100%Z <-> n = 12%nat).
Proof.
  intros Hn Hm. unfold percent_table.
  do 13 (destruct n as [|n];
         [do 13 (destruct m as [|m]; [cbn [nth]; lia|]); lia|]).
  lia.
Qed.

Lemma percent_of_extremes (n : nat) :
  (n <= 12)%nat ->
  (percent_of n 12 = Integral 0 <-> n = 0%nat)
  /\ (percent_of n 12 = Integral 100 <-> n = 12%nat).
Proof.
  intros H. rewrite (percent_of_table n H).
  destruct (percent_table_order n n H H) as (_ & _ & H0 & H100).
  split; (split; [intros [= E]|intros E; f_equal]); tauto.
Qed.

Lemma length_filter_all {A : Type} (P : A -> Prop) `{forall x, Decision (P x)}
    (l : list A) :
  length (filter P l) = length l <-> Forall P l.
Proof.
  induction l as [|x l IH]; [split; [constructor|reflexivity]|].
  rewrite filter_cons. pose proof (length_filter P l) as Hle.
  case_decide as Hx; cbn [length].
  - rewrite Forall_cons. split.
    + intros E. split; [assumption|]. apply IH. lia.
    + intros [_ Hl]. apply IH in Hl. lia.
  - split; [lia|]. intros Hall. apply Forall_cons in Hall as [Hx' _]. contradiction.
Qed.

Lemma length_filter_none {A : Type} (P : A -> Prop) `{forall x, Decision (P x)}
    (l : list A) :
  length (filter P l) = 0%nat <-> Forall (fun x => ~ P x) l.
Proof.
  induction l as [|x l IH]; [split; [constructor|reflexivity]|].
  rewrite filter_cons. case_decide as Hx; cbn [length].
  - split; [lia|]. intros Hall. apply Forall_cons in Hall as [Hx' _]. contradiction.
  - rewrite Forall_cons, IH. tauto.
Qed.

(** X7.  The percentage is 100 exactly when every block is answered and 0
    exactly when none is. *)
Theorem progress_extremes (a : Answers) :
  (progress a = Integral 100 <-> Forall (fun b => answered a b = true) BLOCKS)
  /\ (progress a = Integral 0 <-> Forall (fun b => answered a b = false) BLOCKS).
Proof.
  pose proof (filled_le_total a) as Hle.
  destruct (percent_of_extremes (filled a) Hle) as [H0 H100].
  unfold progress. change total with 12%nat. split.
  - rewrite H100, filled_count.
    change 12%nat with (length BLOCKS). apply length_filter_all.
  - rewrite H0, filled_count, length_filter_none.
    apply Forall_proper; [|reflexivity].
    intros b. destruct (answered a b); split; congruence.
Qed.

(** X8.  The percentage is always an integer, and it orders two answer maps
    exactly as [filled] does: more answered blocks, a strictly higher
    percentage. *)
Theorem progress_strictly_monotone (a1 a2 : Answers) :
  exists x y, progress a1 = Integral x /\ progress a2 = Integral y
              /\ ((x <= y)%Z <-> (filled a1 <= filled a2)%nat)
              /\ ((x < y)%Z <-> (filled a1 < filled a2)%nat).
Proof.
  pose proof (filled_le_total a1) as H1. pose proof (filled_le_total a2) as H2.
  destruct (percent_table_order _ _ H1 H2) as (Hle & Hlt & _ & _).
  eexists _, _. split; [exact (percent_of_table _ H1)|].
  split; [exact (percent_of_table _ H2)|]. split; assumption.
Qed.

(** ** Cards and progress *)

Lemma filter_length_iff {A : Type} (P Q : A -> Prop)
    `{forall x, Decision (P x)} `{forall x, Decision (Q x)} (l : list A) :
  (forall x, P x <-> Q x) -> length (filter P l) = length (filter Q l).
Proof.
  intros HPQ. induction l as [|x l IH]; [reflexivity|].
  rewrite !filter_cons. specialize (HPQ x).
  repeat case_decide; cbn [length]; try tauto; lia.
Qed.

Lemma filter_length_impl {A : Type} (P Q : A -> Prop)
    `{forall x, Decision (P x)} `{forall x, Decision (Q x)} (l : list A) :
  (forall x, P x -> Q x) -> (length (filter P l) <= length (filter Q l))%nat.
Proof.
  intros HPQ. induction l as [|x l IH]; [reflexivity|].
  rewrite !filter_cons. specialize (HPQ x).
  repeat case_decide; cbn [length]; try tauto; lia.
Qed.

Lemma card_count_answered (st : State) (b : Block) :
  (0 < Card.count (render_card st b))%nat <-> answered (answers st) b = true.
Proof.
  unfold render_card, answered. cbn [Card.count]. rewrite or_else_empty.
  fold (answer_of (answers st) b).
  destruct (trim (answer_of (answers st) b)); cbn; split; intros; try lia;
    try discriminate; reflexivity.
Qed.

Lemma card_complete_iff (st : State) (b : Block) :
  Card.isComplete (render_card st b) = true
  <-> Block.id b ∈ completed st \/ answered (answers st) b = true.
Proof.
  unfold render_card, answered. cbn [Card.isComplete]. rewrite or_else_empty.
  fold (answer_of (answers st) b).
  rewrite orb_true_iff, bool_decide_eq_true. reflexivity.
Qed.

(** X9.  [filled] is the number of cards that show a non-zero character
    count, and at least that many cards show as complete. *)
Theorem filled_counts_cards (st : State) :
  filled (answers st)
    = length (filter (fun b => (0 < Card.count (render_card st b))%nat) BLOCKS)
  /\ (filled (answers st)
      <= length (filter (fun b => Card.isComplete (render_card st b) = true)
                   BLOCKS))%nat.
Proof.
  rewrite filled_count. split.
  - apply filter_length_iff. intros b. symmetry. apply card_count_answered.
  - apply filter_length_impl. intros b Hb. apply card_complete_iff. right. exact Hb.
Qed.

(** X10.  After "Limpiar" the card is empty, shows the count 0, and shows
    as complete exactly when its block is in the completed list. *)
Theorem limpiar_card (st : State) (b : Block) :
  Card.value (render_card (onClickLimpiar b st) b) = []
  /\ Card.count (render_card (onClickLimpiar b st) b) = 0%nat
  /\ Card.isComplete (render_card (onClickLimpiar b st) b)
     = bool_decide (Block.id b ∈ completed st).
Proof.
  unfold render_card, onClickLimpiar, onChange. cbn [answers completed].
  rewrite lookup_insert_eq. cbn. rewrite orb_false_r. repeat split.
Qed.

(** ** What the report depends on *)

Lemma trimStart_fixed (s : jsstring) :
  (forall c, head s = Some c -> isWhiteSpace c = false) -> trimStart s = s.
Proof.
  destruct s as [|c s]; [reflexivity|]. intros H. cbn [trimStart].
  rewrite (H c eq_refl). reflexivity.
Qed.

Lemma trim_idempotent (s : jsstring) : trim (trim s) = trim s.
Proof.
  destruct (trim_decompose s) as (_ & Hhead & Hlast).
  unfold trim at 1. rewrite (trimStart_fixed _ Hhead).
  unfold trimEnd. rewrite trimStart_fixed; [apply rev_involutive|].
  intros c. rewrite <- last_rev_head, rev_involutive. apply Hlast.
Qed.

Lemma trim_blank (s : jsstring) :
  forallb isWhiteSpace s = true -> trim s = [].
Proof.
  intros H. assert (Hs : trimStart s = []).
  { induction s as [|c s IH]; [reflexivity|].
    cbn [forallb] in H. apply andb_prop in H as [Hc Hs].
    cbn [trimStart]. rewrite Hc. exact (IH Hs). }
  unfold trim. rewrite Hs. reflexivity.
Qed.

(** The report reads an answers map only through the trimmed answers of the
    catalog blocks. *)
Lemma answered_count_ext (a1 a2 : Answers) (l : list Block) :
  Forall (fun b => trim (answer_of a1 b) = trim (answer_of a2 b)) l ->
  answered_count a1 l = answered_count a2 l.
Proof.
  induction 1 as [|b l Hb _ IH]; [reflexivity|].
  rewrite !answered_count_cons, IH. unfold answered. rewrite Hb. reflexivity.
Qed.

Lemma block_groups_ext (a1 a2 : Answers) (l : list Block) :
  Forall (fun b => trim (answer_of a1 b) = trim (answer_of a2 b)) l ->
  block_group a1 <$> l = block_group a2 <$> l.
Proof.
  induction 1 as [|b l Hb _ IH]; [reflexivity|].
  rewrite !fmap_cons, IH. unfold block_group, answered. rewrite Hb. reflexivity.
Qed.

(** The report is built from the count of answered blocks and the groups
    of lines of the blocks. *)
Lemma report_from_parts (a1 a2 : Answers) :
  answered_count a1 BLOCKS = answered_count a2 BLOCKS ->
  block_group a1 <$> BLOCKS = block_group a2 <$> BLOCKS ->
  buildTXTContent a1 = buildTXTContent a2.
Proof.
  intros Hc Hg. rewrite !buildTXTContent_shape.
  unfold progress_line, progress, body_lines.
  rewrite !filled_count.
  change (length (filter (fun b => answered a1 b = true) BLOCKS))
    with (answered_count a1 BLOCKS).
  change (length (filter (fun b => answered a2 b = true) BLOCKS))
    with (answered_count a2 BLOCKS).
  rewrite Hc, Hg. reflexivity.
Qed.

(** X11.  The report reads an answers map only through the trimmed answers of
    the catalog blocks: two maps that agree on them give the same report. *)
Theorem report_reads_trimmed_catalog_answers (a1 a2 : Answers) :
  Forall (fun b => trim (answer_of a1 b) = trim (answer_of a2 b)) BLOCKS ->
  buildTXTContent a1 = buildTXTContent a2.
Proof.
  intros H. apply report_from_parts.
  - apply answered_count_ext, H.
  - apply block_groups_ext, H.
Qed.

Lemma report_reads_trimmed_catalog_answers_witness :
  Forall (fun b => trim (answer_of (answers padded_state) b)
                   = trim (answer_of (<[js "b99" := js "x"]> {[ js "b1" := js "a" ]}) b))
    BLOCKS
  /\ buildTXTContent (answers padded_state)
     = buildTXTContent (<[js "b99" := js "x"]> {[ js "b1" := js "a" ]}).
Proof.
  assert (H : Forall (fun b => trim (answer_of (answers padded_state) b)
                   = trim (answer_of (<[js "b99" := js "x"]> {[ js "b1" := js "a" ]}) b))
    BLOCKS).
  { repeat (constructor; [vm_compute; reflexivity|]). constructor. }
  split; [exact H|].
  exact (report_reads_trimmed_catalog_answers _ _ H).
Defined.

(** X12.  Trimming every stored answer beforehand changes nothing in the
    report. *)
Theorem report_of_trimmed_answers (a : Answers) :
  buildTXTContent (trim <$> a) = buildTXTContent a.
Proof.
  assert (H : Forall (fun b => trim (answer_of (trim <$> a) b)
                              = trim (answer_of a b)) BLOCKS).
  { apply Forall_forall. intros b _. unfold answer_of. rewrite lookup_fmap.
    destruct (a !! Block.id b); cbn; [apply trim_idempotent|reflexivity]. }
  apply report_from_parts;
    [apply answered_count_ext, H|apply block_groups_ext, H].
Qed.

(** X13.  An answer of white space only is reported like no answer at
    all. *)
Theorem report_blank_is_absent (a : Answers) (k v : jsstring) :
  forallb isWhiteSpace v = true ->
  buildTXTContent (<[k := v]> a) = buildTXTContent (delete k a).
Proof.
  intros Hv.
  assert (H : Forall (fun b => trim (answer_of (<[k := v]> a) b)
                              = trim (answer_of (delete k a) b)) BLOCKS).
  { apply Forall_forall. intros b _. unfold answer_of.
    destruct (decide (Block.id b = k)) as [<-|Hne].
    - rewrite lookup_insert_eq, lookup_delete_eq. cbn. apply trim_blank, Hv.
    - rewrite lookup_insert_ne, lookup_delete_ne by congruence. reflexivity. }
  apply report_from_parts;
    [apply answered_count_ext, H|apply block_groups_ext, H].
Qed.

Lemma report_blank_is_absent_witness :
  forallb isWhiteSpace (js "   ") = true
  /\ buildTXTContent (<[js "b1" := js "   "]> scenario_answers)
     = buildTXTContent (delete (js "b1") scenario_answers).
Proof.
  split; [reflexivity|].
  apply (report_blank_is_absent scenario_answers (js "b1") (js "   ")).
  reflexivity.
Defined.

Lemma join_middle (sep x : jsstring) (l1 l2 : list jsstring) :
  l1 <> [] -> l2 <> [] ->
  join sep (l1 ++ x :: l2) = join sep l1 ++ sep ++ x ++ sep ++ join sep l2.
Proof.
  intros H1 H2. rewrite join_app by (assumption || discriminate).
  rewrite join_cons by assumption. reflexivity.
Qed.

Lemma join_four (sep h q r e : jsstring) (post : list jsstring) :
  join sep (h :: q :: r :: e :: post) =
    h ++ sep ++ q ++ sep ++ r ++ sep ++ join sep (e :: post).
Proof. rewrite !join_cons by discriminate. reflexivity. Qed.

(** X14.  Whatever the answers, every block appears in the report as its
    heading line, its question word for word, and its answer line, one after
    the other. *)
Theorem report_keeps_every_question (a : Answers) :
  Forall (fun b =>
    exists before after,
      buildTXTContent a =
        before ++ LF ++ (Block.numero b ++ js " " ++ Block.titulo b)
        ++ LF ++ Block.pregunta b
        ++ LF ++ (if answered a b then trim (answer_of a b) else SIN_RESPUESTA)
        ++ LF ++ after) BLOCKS.
Proof.
  apply Forall_forall. intros b Hb.
  apply list_elem_of_split in Hb as (l1 & l2 & Hl).
  rewrite buildTXTContent_shape. unfold body_lines. rewrite Hl.
  rewrite fmap_app, fmap_cons, concat_app, concat_cons.
  set (pre := concat (block_group a <$> l1)).
  set (post := concat (block_group a <$> l2)).
  unfold block_group at 1. cbn [app].
  destruct pre as [|p pre'] eqn:Hpre.
  - cbn [app]. rewrite join_four.
    exists (TITLE ++ LF ++ progress_line a), (join LF ([] :: post)).
    rewrite <- !app_assoc. reflexivity.
  - rewrite join_app by discriminate. rewrite join_four.
    exists (TITLE ++ LF ++ progress_line a ++ LF ++ join LF (p :: pre')),
           (join LF ([] :: post)).
    rewrite <- !app_assoc. reflexivity.
Qed.

(** ** Loading and saving *)

(** X15.  When nothing is stored, or the stored text is empty, does not
    parse, or parses to [null], the load effect leaves the state as it
    was. *)
Theorem loadEffect_keeps_state_on_bad_storage (st : State) (s : Storage) :
  getItem KEY s = None
  \/ getItem KEY s = Some []
  \/ (exists raw e, getItem KEY s = Some raw /\ JSON_parse raw = Throw e)
  \/ (exists raw, getItem KEY s = Some raw /\ JSON_parse raw = Ok JNull) ->
  loadEffect st s = Loaded st.
Proof.
  unfold loadEffect.
  intros [H|[H|[(raw & e & H & Hp)|(raw & H & Hp)]]]; rewrite H.
  - reflexivity.
  - reflexivity.
  - rewrite Hp. destruct (truthy_string raw); reflexivity.
  - rewrite Hp. destruct (truthy_string raw); reflexivity.
Qed.

Lemma loadEffect_keeps_state_on_bad_storage_witness :
  (getItem KEY garbled = None
   \/ getItem KEY garbled = Some []
   \/ (exists raw e, getItem KEY garbled = Some raw /\ JSON_parse raw = Throw e)
   \/ (exists raw, getItem KEY garbled = Some raw /\ JSON_parse raw = Ok JNull))
  /\ loadEffect padded_state garbled = Loaded padded_state.
Proof.
  assert (H : getItem KEY garbled = None
   \/ getItem KEY garbled = Some []
   \/ (exists raw e, getItem KEY garbled = Some raw /\ JSON_parse raw = Throw e)
   \/ (exists raw, getItem KEY garbled = Some raw /\ JSON_parse raw = Ok JNull)).
  { right. right. left. exists (js "{oops"), SyntaxError.
    split; vm_compute; reflexivity. }
  split; [exact H|].
  exact (loadEffect_keeps_state_on_bad_storage padded_state garbled H).
Defined.


(** X17.  After a successful save, a load restores answers and completed of
    any state, and the save has touched no other key of the storage. *)
Theorem save_then_load_restores (st st0 : State) (s s' : Storage) :
  saveEffect st s = Ok s' ->
  loadEffect st0 s' =
    Loaded {| answers := answers st; completed := completed st;
              focusId := focusId st0 |}
  /\ (forall k, k <> KEY -> getItem k s' = getItem k s)
  /\ quota s' = quota s.
Proof.
  intros Hsave. split; [exact (save_then_load st st0 s s' Hsave)|].
  unfold saveEffect, setItem in Hsave.
  case_decide; [|discriminate]. injection Hsave as <-.
  split; [|reflexivity]. intros k Hk. unfold getItem. cbn [items].
  apply lookup_insert_ne. congruence.
Qed.

Lemma save_then_load_restores_witness :
  saveEffect padded_state roomy = Ok saved_padded
  /\ loadEffect fresh_state saved_padded =
       Loaded {| answers := answers padded_state;
                 completed := completed padded_state;
                 focusId := focusId fresh_state |}
  /\ (forall k, k <> KEY -> getItem k saved_padded = getItem k roomy)
  /\ quota saved_padded = quota roomy.
Proof.
  assert (H : saveEffect padded_state roomy = Ok saved_padded)
    by (vm_compute; reflexivity).
  split; [exact H|].
  exact (save_then_load_restores padded_state fresh_state roomy saved_padded H).
Defined.

(** X18.  A save overwrites: after two saves the storage is what the second
    save alone would have written, and a load gives the second state. *)
Theorem saveEffect_overwrites (st1 st2 st0 : State) (s s1 s2 : Storage) :
  saveEffect st1 s = Ok s1 ->
  saveEffect st2 s1 = Ok s2 ->
  saveEffect st2 s = Ok s2
  /\ loadEffect st0 s2 =
       Loaded {| answers := answers st2; completed := completed st2;
                 focusId := focusId st0 |}.
Proof.
  intros H1 H2. split; [|exact (save_then_load st2 st0 s1 s2 H2)].
  unfold saveEffect, setItem in H1.
  destruct (decide _) as [Hq1|Hq1] in H1; [|discriminate]. injection H1 as <-.
  unfold saveEffect, setItem in *. cbn [items quota] in H2.
  rewrite insert_insert_eq in H2. exact H2.
Qed.

Lemma saveEffect_overwrites_witness :
  saveEffect fresh_state roomy = Ok saved_fresh
  /\ saveEffect padded_state saved_fresh = Ok saved_padded
  /\ saveEffect padded_state roomy = Ok saved_padded
  /\ loadEffect fresh_state saved_padded =
       Loaded {| answers := answers padded_state;
                 completed := completed padded_state;
                 focusId := focusId fresh_state |}.
Proof.
  assert (H1 : saveEffect fresh_state roomy = Ok saved_fresh)
    by (vm_compute; reflexivity).
  assert (H2 : saveEffect padded_state saved_fresh = Ok saved_padded)
    by (vm_compute; reflexivity).
  split; [exact H1|]. split; [exact H2|].
  exact (saveEffect_overwrites fresh_state padded_state fresh_state
           roomy saved_fresh saved_padded H1 H2).
Defined.

(** ** The keydown listener *)

(** [findIndex] gives -1 or a position of the array. *)
Lemma findIndex_range {A : Type} (P : A -> Prop) `{forall a, Decision (P a)}
    (arr : list A) :
  (-1 <= findIndex P arr < Z.of_nat (length arr))%Z.
Proof.
  unfold findIndex. destruct (list_find P arr) as [[i x]|] eqn:Hf; [|lia].
  apply list_find_Some in Hf as (Hi & _). apply lookup_lt_Some in Hi. lia.
Qed.

Lemma findIndex_absent (focus : jsstring) :
  focus ∉ Block.id <$> BLOCKS ->
  findIndex (fun b => Block.id b = focus) BLOCKS = (-1)%Z.
Proof.
  intros Hf. unfold findIndex.
  destruct (list_find _ BLOCKS) as [[i x]|] eqn:Hfind; [|reflexivity].
  apply list_find_Some in Hfind as (Hi & Hx & _). exfalso. apply Hf.
  rewrite <- Hx. apply list_elem_of_fmap. exists x. split; [reflexivity|].
  apply list_elem_of_lookup. exists i. exact Hi.
Qed.

(** What the listener does, for every focus id and every event: both index
    reads stay inside the catalog, so it never throws. *)
Lemma h_actions (toLowerCase : jsstring -> jsstring) (focus : jsstring)
    (captured : Answers) (e : KeyboardEvent) :
  let idx := findIndex (fun b => Block.id b = focus) BLOCKS in
  exists bd bu,
    BLOCKS !! Z.to_nat (Z.min 11 (idx + 1)) = Some bd
    /\ BLOCKS !! Z.to_nat (Z.max 0 (idx - 1)) = Some bu
    /\ h toLowerCase focus captured e =
         Ok ((if bool_decide (key e = js "ArrowDown") then focus_actions bd else [])
             ++ (if bool_decide (key e = js "ArrowUp") then focus_actions bu else [])
             ++ toggle_actions toLowerCase focus e
             ++ export_actions toLowerCase captured e).
Proof.
  intros idx.
  pose proof (findIndex_range (fun b => Block.id b = focus) BLOCKS) as Hr.
  change (length BLOCKS) with 12%nat in Hr. fold idx in Hr.
  destruct (at_index_Z_catalog (Z.min 11 (idx + 1))) as (bd & Hd & Hbd); [lia|].
  destruct (at_index_Z_catalog (Z.max 0 (idx - 1))) as (bu & Hu & Hbu); [lia|].
  exists bd, bu. split; [exact Hbd|]. split; [exact Hbu|].
  unfold h. fold idx.
  change (Z.of_nat (length BLOCKS) - 1)%Z with 11%Z.
  rewrite Hd, Hu.
  destruct (bool_decide (key e = js "ArrowDown"));
    destruct (bool_decide (key e = js "ArrowUp")); reflexivity.
Qed.

Lemma perform_answers (acts : list Action) (st : State) :
  answers (fold_left perform acts st) = answers st.
Proof.
  revert st. induction acts as [|a acts IH]; intros st; [reflexivity|].
  cbn [fold_left]. rewrite IH. destruct a; reflexivity.
Qed.

Lemma arrows_differ : js "ArrowDown" <> js "ArrowUp".
Proof. vm_compute. discriminate. Qed.

Lemma tail_keeps (toLowerCase : jsstring -> jsstring) (captured : Answers)
    (e : KeyboardEvent) (focus : jsstring) :
  Forall keeps_focus
    (toggle_actions toLowerCase focus e ++ export_actions toLowerCase captured e).
Proof. apply tail_keeps_focus. Qed.

(** X19.  The listener never throws, whatever the focus id and the event;
    it never changes an answer; and the focus it leaves is the one before
    or a catalog id. *)
Theorem keydown_never_throws (toLowerCase : jsstring -> jsstring)
    (captured : Answers) (e : KeyboardEvent) (st : State) :
  exists st', keydown toLowerCase captured e st = Ok st'
              /\ answers st' = answers st
              /\ (focusId st' = focusId st
                  \/ focusId st' ∈ Block.id <$> BLOCKS).
Proof.
  destruct (h_actions toLowerCase (focusId st) captured e)
    as (bd & bu & Hbd & Hbu & Hh).
  unfold keydown. rewrite Hh. cbn [bind]. eexists. split; [reflexivity|].
  split; [apply perform_answers|].
  assert (Hin : forall i b, BLOCKS !! i = Some b -> Block.id b ∈ Block.id <$> BLOCKS).
  { intros i b Hb. apply list_elem_of_fmap. exists b. split; [reflexivity|].
    apply list_elem_of_lookup. exists i. exact Hb. }
  pose proof (tail_keeps toLowerCase captured e (focusId st)) as Htail.
  destruct (bool_decide (key e = js "ArrowDown")) eqn:Hdown;
    destruct (bool_decide (key e = js "ArrowUp")) eqn:Hup.
  - apply bool_decide_eq_true in Hdown, Hup. exfalso.
    apply arrows_differ. congruence.
  - right. cbn [app focus_actions fold_left perform].
    rewrite (focus_after_actions _ (setFocusId (Block.id bd) st) (Block.id bd)
               Htail eq_refl).
    exact (Hin _ _ Hbd).
  - right. cbn [app focus_actions fold_left perform].
    rewrite (focus_after_actions _ (setFocusId (Block.id bu) st) (Block.id bu)
               Htail eq_refl).
    exact (Hin _ _ Hbu).
  - left. cbn [app]. apply focus_after_actions; [exact Htail|reflexivity].
Qed.

Lemma enter_is_no_export_key : js "enter" <> js "e" /\ js "enter" <> js "x".
Proof. split; vm_compute; discriminate. Qed.

Lemma export_keys_are_not_enter : js "e" <> js "enter" /\ js "x" <> js "enter".
Proof. split; vm_compute; discriminate. Qed.

(** X20.  Ctrl+Enter or Cmd+Enter toggles the completion of the focused
    block and does nothing else. *)
Theorem keydown_toggles_focused (toLowerCase : jsstring -> jsstring)
    (captured : Answers) (e : KeyboardEvent) (st : State) :
  (ctrlKey e || metaKey e) = true ->
  toLowerCase (key e) = js "enter" ->
  key e <> js "ArrowDown" -> key e <> js "ArrowUp" ->
  h toLowerCase (focusId st) captured e
    = Ok [PreventDefault; ToggleComplete (focusId st)]
  /\ keydown toLowerCase captured e st = Ok (onToggleComplete (focusId st) st).
Proof.
  intros Hmod Hkey Hnd Hnu.
  destruct (h_actions toLowerCase (focusId st) captured e)
    as (bd & bu & _ & _ & Hh).
  destruct enter_is_no_export_key as [He Hx].
  assert (Hh' : h toLowerCase (focusId st) captured e
                = Ok [PreventDefault; ToggleComplete (focusId st)]).
  { rewrite Hh. unfold toggle_actions, export_actions.
    rewrite Hmod, Hkey.
    rewrite (bool_decide_eq_false_2 _ Hnd), (bool_decide_eq_false_2 _ Hnu).
    rewrite (bool_decide_eq_true_2 _ eq_refl).
    rewrite (bool_decide_eq_false_2 _ He), (bool_decide_eq_false_2 _ Hx).
    rewrite andb_false_r. reflexivity. }
  split; [exact Hh'|]. unfold keydown. rewrite Hh'. reflexivity.
Qed.

Lemma keydown_toggles_focused_witness :
  (ctrlKey CtrlEnter || metaKey CtrlEnter) = true
  /\ ascii_toLowerCase (key CtrlEnter) = js "enter"
  /\ h ascii_toLowerCase (focusId fresh_state) ∅ CtrlEnter
       = Ok [PreventDefault; ToggleComplete (focusId fresh_state)]
  /\ keydown ascii_toLowerCase ∅ CtrlEnter fresh_state
       = Ok (onToggleComplete (focusId fresh_state) fresh_state).
Proof.
  split; [reflexivity|]. split; [vm_compute; reflexivity|].
  apply (keydown_toggles_focused ascii_toLowerCase ∅ CtrlEnter fresh_state).
  - reflexivity.
  - vm_compute. reflexivity.
  - vm_compute. discriminate.
  - vm_compute. discriminate.
Defined.

(** X21.  Alt+E or Alt+X downloads the report of the answers the listener
    holds, under the fixed file name, and leaves the state alone. *)
Theorem keydown_exports (toLowerCase : jsstring -> jsstring)
    (captured : Answers) (e : KeyboardEvent) (st : State) :
  altKey e = true ->
  toLowerCase (key e) = js "e" \/ toLowerCase (key e) = js "x" ->
  key e <> js "ArrowDown" -> key e <> js "ArrowUp" ->
  h toLowerCase (focusId st) captured e
    = Ok [PreventDefault;
          Download (js "canvas_implementadores_sector_privado.txt")
            (buildTXTContent captured)]
  /\ keydown toLowerCase captured e st = Ok st.
Proof.
  intros Halt Hkey Hnd Hnu.
  destruct (h_actions toLowerCase (focusId st) captured e)
    as (bd & bu & _ & _ & Hh).
  destruct export_keys_are_not_enter as [He Hx].
  assert (Hh' : h toLowerCase (focusId st) captured e
                = Ok [PreventDefault; exportTXT captured]).
  { rewrite Hh. unfold toggle_actions, export_actions. rewrite Halt.
    rewrite (bool_decide_eq_false_2 _ Hnd), (bool_decide_eq_false_2 _ Hnu).
    destruct Hkey as [Hk|Hk]; rewrite Hk.
    - rewrite (bool_decide_eq_false_2 _ He), (bool_decide_eq_true_2 _ eq_refl).
      rewrite andb_false_r. reflexivity.
    - rewrite (bool_decide_eq_false_2 _ Hx), (bool_decide_eq_true_2 _ eq_refl).
      rewrite andb_false_r, orb_true_r. reflexivity. }
  split; [exact Hh'|]. unfold keydown. rewrite Hh'. destruct st; reflexivity.
Qed.

Lemma keydown_exports_witness :
  altKey AltE = true
  /\ (ascii_toLowerCase (key AltE) = js "e" \/ ascii_toLowerCase (key AltE) = js "x")
  /\ h ascii_toLowerCase (focusId padded_state) scenario_answers AltE
       = Ok [PreventDefault;
             Download (js "canvas_implementadores_sector_privado.txt")
               (buildTXTContent scenario_answers)]
  /\ keydown ascii_toLowerCase scenario_answers AltE padded_state = Ok padded_state.
Proof.
  assert (Hk : ascii_toLowerCase (key AltE) = js "e"
               \/ ascii_toLowerCase (key AltE) = js "x")
    by (left; vm_compute; reflexivity).
  split; [reflexivity|]. split; [exact Hk|].
  apply (keydown_exports ascii_toLowerCase scenario_answers AltE padded_state).
  - reflexivity.
  - exact Hk.
  - vm_compute. discriminate.
  - vm_compute. discriminate.
Defined.

(** X22.  An event that is no arrow key, no Ctrl/Cmd+Enter and no
    Alt+E/Alt+X causes no action at all. *)
Theorem keydown_ignores_other_keys (toLowerCase : jsstring -> jsstring)
    (captured : Answers) (e : KeyboardEvent) (st : State) :
  key e <> js "ArrowDown" -> key e <> js "ArrowUp" ->
  (ctrlKey e || metaKey e) = false \/ toLowerCase (key e) <> js "enter" ->
  altKey e = false
  \/ (toLowerCase (key e) <> js "e" /\ toLowerCase (key e) <> js "x") ->
  h toLowerCase (focusId st) captured e = Ok []
  /\ keydown toLowerCase captured e st = Ok st.
Proof.
  intros Hnd Hnu Htog Hexp.
  destruct (h_actions toLowerCase (focusId st) captured e)
    as (bd & bu & _ & _ & Hh).
  assert (Hh' : h toLowerCase (focusId st) captured e = Ok []).
  { rewrite Hh. unfold toggle_actions, export_actions.
    rewrite (bool_decide_eq_false_2 _ Hnd), (bool_decide_eq_false_2 _ Hnu).
    assert (Ht : (ctrlKey e || metaKey e)
                 && bool_decide (toLowerCase (key e) = js "enter") = false).
    { destruct Htog as [->|Hne]; [reflexivity|].
      rewrite (bool_decide_eq_false_2 _ Hne). apply andb_false_r. }
    assert (Hx : altKey e
                 && (bool_decide (toLowerCase (key e) = js "e")
                     || bool_decide (toLowerCase (key e) = js "x")) = false).
    { destruct Hexp as [->|[H1 H2]]; [reflexivity|].
      rewrite (bool_decide_eq_false_2 _ H1), (bool_decide_eq_false_2 _ H2).
      apply andb_false_r. }
    rewrite Ht, Hx. reflexivity. }
  split; [exact Hh'|]. unfold keydown. rewrite Hh'. destruct st; reflexivity.
Qed.

Lemma keydown_ignores_other_keys_witness :
  key PlainA <> js "ArrowDown" /\ key PlainA <> js "ArrowUp"
  /\ h ascii_toLowerCase (focusId padded_state) ∅ PlainA = Ok []
  /\ keydown ascii_toLowerCase ∅ PlainA padded_state = Ok padded_state.
Proof.
  assert (H1 : key PlainA <> js "ArrowDown") by (vm_compute; discriminate).
  assert (H2 : key PlainA <> js "ArrowUp") by (vm_compute; discriminate).
  split; [exact H1|]. split; [exact H2|].
  apply (keydown_ignores_other_keys ascii_toLowerCase ∅ PlainA padded_state H1 H2).
  - left. reflexivity.
  - left. reflexivity.
Defined.

(** One arrow key: where the focus lands, from the position [findIndex]
    reports. *)
Lemma arrow_step (toLowerCase : jsstring -> jsstring) (captured : Answers)
    (ctrl meta alt : bool) (st : State) :
  let idx := findIndex (fun b => Block.id b = focusId st) BLOCKS in
  (exists st', keydown toLowerCase captured (ArrowDown ctrl meta alt) st = Ok st'
               /\ Some (focusId st') = id_at (Z.min 11 (idx + 1)))
  /\ (exists st', keydown toLowerCase captured (ArrowUp ctrl meta alt) st = Ok st'
               /\ Some (focusId st') = id_at (Z.max 0 (idx - 1))).
Proof.
  intros idx. split.
  - destruct (h_actions toLowerCase (focusId st) captured (ArrowDown ctrl meta alt))
      as (bd & bu & Hbd & _ & Hh).
    change (bool_decide (key (ArrowDown ctrl meta alt) = js "ArrowDown"))
      with true in Hh.
    change (bool_decide (key (ArrowDown ctrl meta alt) = js "ArrowUp"))
      with false in Hh.
    destruct (keydown_focus toLowerCase captured (ArrowDown ctrl meta alt) st bd
                _ Hh (tail_keeps _ _ _ _)) as (st' & Hkd & Hf).
    exists st'. split; [exact Hkd|]. unfold id_at. fold idx in Hbd.
    rewrite Hbd, Hf. reflexivity.
  - destruct (h_actions toLowerCase (focusId st) captured (ArrowUp ctrl meta alt))
      as (bd & bu & _ & Hbu & Hh).
    change (bool_decide (key (ArrowUp ctrl meta alt) = js "ArrowDown"))
      with false in Hh.
    change (bool_decide (key (ArrowUp ctrl meta alt) = js "ArrowUp"))
      with true in Hh.
    destruct (keydown_focus toLowerCase captured (ArrowUp ctrl meta alt) st bu
                _ Hh (tail_keeps _ _ _ _)) as (st' & Hkd & Hf).
    exists st'. split; [exact Hkd|]. unfold id_at. fold idx in Hbu.
    rewrite Hbu, Hf. reflexivity.
Qed.

(** X23.  When the focus id is no catalog id, either arrow key moves the
    focus to the first block. *)
Theorem arrows_from_unknown_focus (toLowerCase : jsstring -> jsstring)
    (captured : Answers) (ctrl meta alt : bool) (st : State) :
  focusId st ∉ Block.id <$> BLOCKS ->
  (exists st', keydown toLowerCase captured (ArrowDown ctrl meta alt) st = Ok st'
               /\ Some (focusId st') = id_at 0)
  /\ (exists st', keydown toLowerCase captured (ArrowUp ctrl meta alt) st = Ok st'
               /\ Some (focusId st') = id_at 0).
Proof.
  intros Hf.
  pose proof (arrow_step toLowerCase captured ctrl meta alt st) as Hstep.
  cbv zeta in Hstep. rewrite (findIndex_absent _ Hf) in Hstep. exact Hstep.
Qed.

Lemma arrows_from_unknown_focus_witness :
  (focusId stray_state ∉ Block.id <$> BLOCKS)
  /\ (exists st', keydown ascii_toLowerCase ∅ (ArrowDown false false false)
                    stray_state = Ok st'
                  /\ Some (focusId st') = id_at 0)
  /\ (exists st', keydown ascii_toLowerCase ∅ (ArrowUp false false false)
                    stray_state = Ok st'
                  /\ Some (focusId st') = id_at 0).
Proof.
  assert (H : focusId stray_state ∉ Block.id <$> BLOCKS).
  { apply (bool_decide_unpack _). vm_compute. reflexivity. }
  split; [exact H|].
  exact (arrows_from_unknown_focus ascii_toLowerCase ∅ false false false
           stray_state H).
Defined.

Lemma id_at_catalog (z : Z) (id : jsstring) :
  (0 <= z < 12)%Z -> Some id = id_at z ->
  exists b, BLOCKS !! Z.to_nat z = Some b /\ id = Block.id b.
Proof.
  intros Hz Hid. unfold id_at in Hid.
  destruct (BLOCKS !! Z.to_nat z) as [b|]; [|discriminate].
  exists b. split; [reflexivity|]. injection Hid as ->. reflexivity.
Qed.

(** X24.  [n] presses of ArrowDown from the block at index [i] focus the
    block at index min(11, i+n); [n] presses of ArrowUp focus index
    max(0, i-n). *)
Theorem arrows_repeated (toLowerCase : jsstring -> jsstring)
    (captured : Answers) (ctrl meta alt : bool) (n : nat) :
  forall (st : State) (i : nat) (b : Block),
  BLOCKS !! i = Some b ->
  focusId st = Block.id b ->
  (exists st', keydown_n toLowerCase captured (ArrowDown ctrl meta alt) n st = Ok st'
               /\ Some (focusId st') = id_at (Z.min 11 (Z.of_nat i + Z.of_nat n)))
  /\ (exists st', keydown_n toLowerCase captured (ArrowUp ctrl meta alt) n st = Ok st'
               /\ Some (focusId st') = id_at (Z.max 0 (Z.of_nat i - Z.of_nat n))).
Proof.
  induction n as [|n IH]; intros st i b Hi Hfocus.
  - assert (Hlt : (i < 12)%nat) by (apply lookup_lt_Some in Hi; exact Hi).
    assert (Hid : Some (focusId st) = id_at (Z.of_nat i)).
    { unfold id_at. rewrite Nat2Z.id, Hi, Hfocus. reflexivity. }
    split; exists st; (split; [reflexivity|]).
    + replace (Z.min 11 (Z.of_nat i + Z.of_nat 0)) with (Z.of_nat i) by lia.
      exact Hid.
    + replace (Z.max 0 (Z.of_nat i - Z.of_nat 0)) with (Z.of_nat i) by lia.
      exact Hid.
  - assert (Hlt : (i < 12)%nat) by (apply lookup_lt_Some in Hi; exact Hi).
    pose proof (arrow_step toLowerCase captured ctrl meta alt st) as Hstep.
    cbv zeta in Hstep. rewrite Hfocus, (findIndex_catalog i b Hi) in Hstep.
    destruct Hstep as [(sd & Hkd & Hfd) (su & Hku & Hfu)].
    split.
    + assert (Hrd : (0 <= Z.min 11 (Z.of_nat i + 1) < 12)%Z) by lia.
      destruct (id_at_catalog _ _ Hrd Hfd) as (bd & Hbd & Hidd).
      destruct (IH sd _ bd Hbd Hidd) as [(st' & Hn & Hf') _].
      exists st'. cbn [keydown_n]. rewrite Hkd. cbn [bind]. split; [exact Hn|].
      rewrite Hf'. f_equal. lia.
    + assert (Hru : (0 <= Z.max 0 (Z.of_nat i - 1) < 12)%Z) by lia.
      destruct (id_at_catalog _ _ Hru Hfu) as (bu & Hbu & Hidu).
      destruct (IH su _ bu Hbu Hidu) as [_ (st' & Hn & Hf')].
      exists st'. cbn [keydown_n]. rewrite Hku. cbn [bind]. split; [exact Hn|].
      rewrite Hf'. f_equal. lia.
Qed.

Lemma arrows_repeated_witness :
  BLOCKS !! 0%nat = Some first_block
  /\ focusId padded_state = Block.id first_block
  /\ (exists st', keydown_n ascii_toLowerCase ∅ (ArrowDown false false false) 20
                    padded_state = Ok st'
                  /\ Some (focusId st')
                     = id_at (Z.min 11 (Z.of_nat 0 + Z.of_nat 20)))
  /\ (exists st', keydown_n ascii_toLowerCase ∅ (ArrowUp false false false) 20
                    padded_state = Ok st'
                  /\ Some (focusId st')
                     = id_at (Z.max 0 (Z.of_nat 0 - Z.of_nat 20))).
Proof.
  split; [reflexivity|]. split; [reflexivity|].
  apply (arrows_repeated ascii_toLowerCase ∅ false false false 20
           padded_state 0 first_block); reflexivity.
Defined.

(** ** The self-check and the storage *)

(** The round-trip check either passes and has removed its test key, or fails
    and has left the storage as it was; every other key is untouched. *)
Lemma roundtrip_check_storage (s : Storage) :
  (forall k, k <> KEY ++ js "_test" ->
     getItem k (roundtrip_check s).2 = getItem k s)
  /\ quota (roundtrip_check s).2 = quota s
  /\ ((pass (roundtrip_check s).1 = true
       /\ getItem (KEY ++ js "_test") (roundtrip_check s).2 = None)
      \/ (pass (roundtrip_check s).1 = false /\ (roundtrip_check s).2 = s)).
Proof.
  destruct (setItem (KEY ++ js "_test")
              (JSON_stringify {| p_answers := {[ js "b1" := js "ok" ]};
                                 p_completed := [js "b1"] |}) s)
    as [s1|e] eqn:Hset.
  - rewrite (roundtrip_check_passes s s1 Hset). cbn [fst snd pass].
    unfold setItem in Hset. case_decide; [|discriminate]. injection Hset as <-.
    unfold removeItem, getItem. cbn [items quota].
    split; [|split; [reflexivity|left; split; [reflexivity|apply lookup_delete_eq]]].
    intros k Hk.
    rewrite lookup_delete_ne by (intros E; apply Hk; symmetry; exact E).
    rewrite lookup_insert_ne by (intros E; apply Hk; symmetry; exact E).
    reflexivity.
  - unfold roundtrip_check. rewrite Hset. cbn [fst snd pass].
    split; [reflexivity|]. split; [reflexivity|]. right. split; reflexivity.
Qed.

Lemma runSmokeTests_shape (s : Storage) :
  exists r1 r2 r3 r4 r5,
    runSmokeTests s =
      Ok ([r1; r2; r3; r4; r5; (roundtrip_check s).1; txt_check],
          (roundtrip_check s).2).
Proof.
  unfold runSmokeTests. destruct (roundtrip_check s) as [r6 s'].
  eexists _, _, _, _, _. reflexivity.
Qed.

Lemma test_key_is_not_KEY : KEY <> KEY ++ js "_test".
Proof. vm_compute. discriminate. Qed.

(** X25.  The self-check never throws and always reports seven results; it
    leaves the saved canvas and every key but its own test key untouched;
    and it either has removed the test key or has left the storage as it
    was. *)
Theorem runSmokeTests_keeps_saved_data (s : Storage) :
  exists results s',
    runSmokeTests s = Ok (results, s')
    /\ length results = 7%nat
    /\ getItem KEY s' = getItem KEY s
    /\ (forall k, k <> KEY ++ js "_test" -> getItem k s' = getItem k s)
    /\ (getItem (KEY ++ js "_test") s' = None \/ s' = s).
Proof.
  destruct (runSmokeTests_shape s) as (r1 & r2 & r3 & r4 & r5 & Hrun).
  destruct (roundtrip_check_storage s) as (Hframe & _ & Hcases).
  eexists _, _. split; [exact Hrun|]. split; [reflexivity|].
  split; [apply Hframe, test_key_is_not_KEY|]. split; [exact Hframe|].
  destruct Hcases as [[_ Hgone]|[_ Hsame]]; [left; exact Hgone|right; exact Hsame].
Qed.
